(** * validate_bible_cho_yao.py: a shallow embedding and its properties

    The script loads one JSON document, runs five advisory checks over the
    in-memory tree, prints its findings and writes a re-serialised copy next
    to the input.  The embedding follows the script line by line:

    - Python [str] values are sequences of Unicode code points ([list N]);
    - the tree built by [json.load] is the inductive type [json];
    - operations that can raise ([.get] on a non-dict, [len] of a number,
      [Counter] over an unhashable value, ...) return a [result];
    - [main] runs in a small monad over the process state (files and
      standard output) whose results are a value, an uncaught exception
      or [SystemExit];
    - the [json] module itself (parser and serialiser) is a parameter of the
      program, the class [JsonModule]; [RefJson] is an executable instance.

    Python floats are not modelled: the numbers of a document are integers. *)

From Stdlib Require Import ZArith NArith List Bool Ascii String Lia DecimalString.
From stdpp Require Import base option list gmap.

Set Default Proof Using "Type".
Set Warnings "-register-all".
Local Open Scope Z_scope.

(** ** Python strings *)

(** A [str] is a sequence of code points. *)
Abbreviation pystr := (list N).

(** An ASCII literal of the source, as a [str]. *)
Definition str (lit : string) : pystr :=
  List.map N_of_ascii (list_ascii_of_string lit).

Module PyStr.

(** [str.isspace] on one character: the code points CPython lists in
    [_PyUnicode_IsWhitespace]. *)
Definition isspace (c : N) : bool :=
  ((0x09 <=? c) && (c <=? 0x0D) || (0x1C <=? c) && (c <=? 0x20)
   || (c =? 0x85) || (c =? 0xA0) || (c =? 0x1680)
   || (0x2000 <=? c) && (c <=? 0x200A)
   || (c =? 0x2028) || (c =? 0x2029) || (c =? 0x202F)
   || (c =? 0x205F) || (c =? 0x3000))%N.

Definition eqb (a b : pystr) : bool := bool_decide (a = b).

(** [s.startswith(p)]. *)
Fixpoint startswith (p s : pystr) : bool :=
  match p, s with
  | [], _ => true
  | _ :: _, [] => false
  | a :: p', b :: s' => (a =? b)%N && startswith p' s'
  end.

(** [sub in s] for two strings: [sub] starts at some position of [s]. *)
Fixpoint contains (sub s : pystr) : bool :=
  startswith sub s ||
  match s with
  | [] => false
  | _ :: s' => contains sub s'
  end.

Fixpoint lstrip (s : pystr) : pystr :=
  match s with
  | [] => []
  | c :: s' => if isspace c then lstrip s' else s
  end.

Definition rstrip (s : pystr) : pystr := rev (lstrip (rev s)).

(** [s.strip()]: leading and trailing whitespace removed. *)
Definition strip (s : pystr) : pystr := rstrip (lstrip s).

(** [s.split()] without arguments: the maximal runs of non-whitespace
    characters, left to right.  [tok] is the run being read. *)
Fixpoint split_from (tok s : pystr) : list pystr :=
  match s with
  | [] => match tok with [] => [] | _ => [tok] end
  | c :: s' =>
      if isspace c
      then match tok with [] => split_from [] s' | _ => tok :: split_from [] s' end
      else split_from (tok ++ [c]) s'
  end.

Definition split (s : pystr) : list pystr := split_from [] s.

(** [s.replace(old, new)] for a non-empty [old]: every occurrence of
    [old], found left to right without overlap, becomes [new].  [skip]
    counts the characters of a matched occurrence still to be dropped. *)
Fixpoint replace_from (old new : pystr) (skip : nat) (s : pystr) : pystr :=
  match s with
  | [] => []
  | c :: s' =>
      match skip with
      | S k => replace_from old new k s'
      | O =>
          if startswith old s
          then new ++ replace_from old new (Nat.pred (length old)) s'
          else c :: replace_from old new O s'
      end
  end.

Definition replace (old new s : pystr) : pystr := replace_from old new O s.

(** What [s.encode('utf-8')] accepts: a string without surrogate code
    points. *)
Definition is_surrogate (c : N) : bool := ((0xD800 <=? c) && (c <=? 0xDFFF))%N.

Definition utf8_encodable (s : pystr) : bool := forallb (λ c, negb (is_surrogate c)) s.

End PyStr.

(** ** The document tree *)

(** What [json.load] builds: [None], [bool], [int], [str], [list] and
    [dict].  A [dict] keeps its entries in insertion order; its keys are
    distinct, which no definition below relies on: a lookup takes the
    first entry of the key. *)
Inductive json : Type :=
| JNull
| JBool (b : bool)
| JInt (z : Z)
| JStr (s : pystr)
| JArr (items : list json)
| JObj (entries : list (pystr * json)).

(** ** Exceptions *)

Inductive exn : Type :=
| AttributeError
| TypeError
| IndexError
| FileNotFoundError
| UnicodeEncodeError
| JSONDecodeError (msg : pystr).

Inductive result (A : Type) : Type :=
| Ok (a : A)
| Raise (e : exn).
Arguments Ok {A} a.
Arguments Raise {A} e.

#[export] Instance result_ret : MRet result := @Ok.
#[export] Instance result_bind : MBind result := λ A B f m,
  match m with
  | Ok a => f a
  | Raise e => Raise e
  end.

(** ** Python operations on document values *)

Module Py.

Definition is_dict (v : json) : bool :=
  match v with JObj _ => true | _ => false end.

Definition is_str (v : json) : bool :=
  match v with JStr _ => true | _ => false end.

(** Lookup of a key among the entries of a [dict]. *)
Fixpoint assoc (k : pystr) (entries : list (pystr * json)) : option json :=
  match entries with
  | [] => None
  | (k', v) :: rest => if PyStr.eqb k' k then Some v else assoc k rest
  end.

(** [o.get(k, dflt)]: only a [dict] has the method. *)
Definition get (o : json) (k : pystr) (dflt : json) : result json :=
  match o with
  | JObj entries => Ok (default dflt (assoc k entries))
  | _ => Raise AttributeError
  end.

(** [k in o] for a [dict] [o]. *)
Definition has_key (k : pystr) (entries : list (pystr * json)) : bool :=
  bool_decide (is_Some (assoc k entries)).

(** [len(o)]. *)
Definition len (o : json) : result nat :=
  match o with
  | JStr s => Ok (length s)
  | JArr items => Ok (length items)
  | JObj entries => Ok (length entries)
  | _ => Raise TypeError
  end.

(** The values a [for] loop over [o] visits: the items of a list, the
    characters of a string, the keys of a dict. *)
Definition iter (o : json) : result (list json) :=
  match o with
  | JStr s => Ok (List.map (λ c, JStr [c]) s)
  | JArr items => Ok items
  | JObj entries => Ok (List.map (λ kv, JStr (fst kv)) entries)
  | _ => Raise TypeError
  end.

(** [sub in o] for a string literal [sub]: substring test on a string,
    element test on a list, key test on a dict. *)
Definition contains (sub : pystr) (o : json) : result bool :=
  match o with
  | JStr s => Ok (PyStr.contains sub s)
  | JArr items =>
      Ok (existsb (λ x, match x with JStr t => PyStr.eqb t sub | _ => false end) items)
  | JObj entries => Ok (has_key sub entries)
  | _ => Raise TypeError
  end.

(** [o.strip()]: only a [str] has the method. *)
Definition strip (o : json) : result pystr :=
  match o with
  | JStr s => Ok (PyStr.strip s)
  | _ => Raise AttributeError
  end.

(** [o.items()]: only a [dict] has the method. *)
Definition items (o : json) : result (list (pystr * json)) :=
  match o with
  | JObj entries => Ok entries
  | _ => Raise AttributeError
  end.

(** Dictionary keys.  Hashable document values are [None], booleans,
    integers and strings; [True] and [1] (and [False] and [0]) hash and
    compare equal, so they are one key. *)
Inductive hkey : Type :=
| KNone
| KNum (z : Z)
| KStr (s : pystr).

Definition key_of (v : json) : option hkey :=
  match v with
  | JNull => Some KNone
  | JBool b => Some (KNum (Z.b2z b))
  | JInt z => Some (KNum z)
  | JStr s => Some (KStr s)
  | JArr _ | JObj _ => None
  end.

Definition hashable (v : json) : bool :=
  match key_of v with Some _ => true | None => false end.

#[export] Instance hkey_eq_dec : EqDecision hkey.
Proof. solve_decision. Defined.

(** [x == y] between two hashable values, as a dict compares keys. *)
Definition same_key (x y : json) : bool :=
  bool_decide (key_of x = key_of y).

(** One step of [Counter]: count [k] under the key already present, or
    add it at the end with count 1. *)
Fixpoint tally (k : json) (c : list (json * nat)) : list (json * nat) :=
  match c with
  | [] => [(k, 1%nat)]
  | (k', n) :: rest =>
      if same_key k' k then (k', S n) :: rest else (k', n) :: tally k rest
  end.

(** [Counter(xs)], as its [items()] in insertion order; an unhashable
    element raises [TypeError]. *)
Definition Counter (xs : list json) : result (list (json * nat)) :=
  if forallb hashable xs
  then Ok (fold_left (λ c k, tally k c) xs [])
  else Raise TypeError.

End Py.

(** ** check_unique_ids (lines 25-29) *)

(** [[it.get(key) for it in items if isinstance(it, dict) and key in it]]
    over the values [items] iterates to. *)
Fixpoint collect_ids (key : pystr) (its : list json) : list json :=
  match its with
  | [] => []
  | JObj entries :: rest =>
      match Py.assoc key entries with
      | Some v => v :: collect_ids key rest
      | None => collect_ids key rest
      end
  | _ :: rest => collect_ids key rest
  end.

Definition check_unique_ids_key (items : json) (key : pystr) : result (list json) :=
  its ← Py.iter items;
  c ← Py.Counter (collect_ids key its);
  mret (List.map fst (List.filter (λ kv, Nat.ltb 1 (snd kv)) c)).

(** The default argument [key='id']. *)
Definition check_unique_ids (items : json) : result (list json) :=
  check_unique_ids_key items (str "id").

(** ** The process: files, standard output, exit *)

(** One constructor per [print] call of [main], carrying the values the
    call prints after its fixed text. *)
Inductive line : Type :=
| LUsage                                  (* line 33 *)
| LParseFail (e : exn)                    (* line 39 *)
| LParseOk                                (* line 41 *)
| LSummary (n_chapters n_scenarios : nat) (* line 45 *)
| LDupChapters (dup_ch : list json)       (* line 50 *)
| LChaptersUnique                         (* line 52 *)
| LDupScenarios (dup_sc : list json)      (* line 54 *)
| LScenariosUnique                        (* line 56 *)
| LContactPlaceholder (contact : json)    (* line 61 *)
| LContactSet (contact : json)            (* line 63 *)
| LDocsHeader                             (* line 71 *)
| LDocIssue (k v : pystr)                 (* line 73 *)
| LDocsOk                                 (* line 75 *)
| LAntiHeader                             (* line 84 *)
| LAntiItem (i : json) (p : pystr)        (* line 86 *)
| LAntiOk                                 (* line 88 *)
| LWritten (out : pystr)                  (* line 92 *)
| LNextSteps                              (* line 93 *)
| LSuggestion (n : nat).                  (* lines 94-96 *)

(** Files are text files named by their path, held as the text that
    decoding them as UTF-8 gives; [stdout] is the sequence of lines
    printed so far.  Opening a path for writing always succeeds, and
    standard output accepts every string. *)
Record world : Type := World {
  files : gmap (list N) (list N);
  stdout : list line
}.

(** How a computation stops early: an exception nobody caught, or
    [sys.exit(code)]. *)
Inductive signal : Type :=
| Uncaught (e : exn)
| SystemExit (code : Z).

Inductive res (A : Type) : Type :=
| Done (a : A)
| Abort (s : signal).
Arguments Done {A} a.
Arguments Abort {A} s.

Definition prog (A : Type) : Type := world → res A * world.

#[export] Instance prog_ret : MRet prog := λ A a w, (Done a, w).
#[export] Instance prog_bind : MBind prog := λ A B f m w,
  match m w with
  | (Done a, w') => f a w'
  | (Abort s, w') => (Abort s, w')
  end.

Definition lift {A} (r : result A) : prog A := λ w,
  match r with
  | Ok a => (Done a, w)
  | Raise e => (Abort (Uncaught e), w)
  end.

Definition print (l : line) : prog unit := λ w,
  (Done tt, {| files := files w; stdout := stdout w ++ [l] |}).

Definition sys_exit (code : Z) : prog unit := λ w, (Abort (SystemExit code), w).

(** [try: body except Exception as e: handler(e)].  [SystemExit] is not an
    [Exception] and passes through. *)
Definition try_except {A} (body : prog A) (handler : exn → prog A) : prog A := λ w,
  match body w with
  | (Abort (Uncaught e), w') => handler e w'
  | other => other
  end.

(** The status the interpreter exits with: 0 when [main] returns, the
    argument of [sys.exit], 1 after an uncaught exception. *)
Definition exit_status {A} (r : res A) : Z :=
  match r with
  | Done _ => 0
  | Abort (SystemExit code) => code
  | Abort (Uncaught _) => 1
  end.

(** ** The json module *)

(** [json.load] on the text of a file, and the pieces of text that
    [json.dump] with [ensure_ascii=False, indent=2] writes one after the
    other. *)
Class JsonModule : Type := {
  json_loads : pystr → result json;
  json_iterencode : json → list pystr
}.

(** The text [json.dump] writes when every piece is written. *)
Definition json_dumps {J : JsonModule} (obj : json) : pystr :=
  concat (json_iterencode obj).

(** ** The script *)

Section Script.
Context {J : JsonModule}.

(** Lines 17-19. *)
Definition load_json (path : pystr) : prog json := λ w,
  match files w !! path with
  | None => (Abort (Uncaught FileNotFoundError), w)
  | Some text => lift (json_loads text) w
  end.

(** [f.write(chunk)] for each piece in turn, on a file opened with
    [encoding='utf-8']: a piece that cannot be encoded raises
    UnicodeEncodeError, after which the file holds the pieces [written]
    before it. *)
Fixpoint write_chunks (chunks : list pystr) (written : pystr) : pystr * option exn :=
  match chunks with
  | [] => (written, None)
  | chunk :: rest =>
      if PyStr.utf8_encodable chunk
      then write_chunks rest (written ++ chunk)
      else (written, Some UnicodeEncodeError)
  end.

(** Lines 21-23. *)
Definition write_json (obj : json) (path : pystr) : prog unit := λ w,
  let '(text, failure) := write_chunks (json_iterencode obj) [] in
  (match failure with
   | None => Done tt
   | Some e => Abort (Uncaught e)
   end,
   {| files := <[path := text]> (files w); stdout := stdout w |}).

(** Lines 43-44. *)
Definition chapters_of (data : json) : result json :=
  selection ← Py.get data (str "selection") (JObj []);
  Py.get selection (str "chapters") (JArr []).

Definition scenarios_of (data : json) : result json :=
  Py.get data (str "scenarios") (JArr []).

(** Lines 58-59. *)
Definition contact_of (data : json) : result json :=
  meta ← Py.get data (str "meta") (JObj []);
  maint ← Py.get meta (str "maintainer") (JObj []);
  Py.get maint (str "contact") (JStr []).

(** The condition of line 60, evaluated left to right with the
    short-circuit of [or]. *)
Definition is_placeholder (contact : json) : result bool :=
  a ← Py.contains (str "example.org") contact;
  if a : bool then mret true else
  b ← Py.contains (str "replace") contact;
  if b : bool then mret true else
  t ← Py.strip contact;
  mret (PyStr.eqb t []).

(** Lines 58-63: the line the maintainer check prints. *)
Definition contact_line (data : json) : result line :=
  contact ← contact_of data;
  placeholder ← is_placeholder contact;
  mret (if placeholder : bool then LContactPlaceholder contact else LContactSet contact).

(** Lines 66-69: the loop over [docs.items()]. *)
Fixpoint scan_docs (entries : list (pystr * json)) : list (pystr * pystr) :=
  match entries with
  | [] => []
  | (k, JStr v) :: rest =>
      if PyStr.contains (str " ") v then (k, v) :: scan_docs rest else scan_docs rest
  | _ :: rest => scan_docs rest
  end.

(** Line 65. *)
Definition docs_of (data : json) : result json :=
  Py.get data (str "docs") (JObj []).

(** Lines 65-69. *)
Definition doc_issues_of (data : json) : result (list (pystr * pystr)) :=
  docs ← docs_of data;
  entries ← Py.items docs;
  mret (scan_docs entries).

(** Lines 79-82: the loop over [anti], [nl_patterns] being the list
    built so far. *)
Fixpoint scan_anti (anti : list json) (nl_patterns : list (json * pystr))
  : result (list (json * pystr)) :=
  match anti with
  | [] => mret nl_patterns
  | a :: rest =>
      p ← Py.get a (str "pattern") (JStr []);
      match p with
      | JStr p =>
          if Nat.ltb 4 (length (PyStr.split p))
          then i ← Py.get a (str "id") JNull; scan_anti rest (nl_patterns ++ [(i, p)])
          else scan_anti rest nl_patterns
      | _ => scan_anti rest nl_patterns
      end
  end.

(** Line 77. *)
Definition anti_abuse_of (data : json) : result json :=
  safeguards ← Py.get data (str "safeguards") (JObj []);
  Py.get safeguards (str "anti_abuse") (JArr []).

(** Lines 77-82. *)
Definition nl_patterns_of (data : json) : result (list (json * pystr)) :=
  anti ← anti_abuse_of data;
  its ← Py.iter anti;
  scan_anti its [].

(** Line 90. *)
Definition output_path (path : pystr) : pystr :=
  PyStr.replace (str ".json") [] path ++ str ".cleaned.json".

(** Lines 49-52 and 53-56. *)
Definition chapters_line (dup_ch : list json) : line :=
  match dup_ch with [] => LChaptersUnique | _ => LDupChapters dup_ch end.

Definition scenarios_line (dup_sc : list json) : line :=
  match dup_sc with [] => LScenariosUnique | _ => LDupScenarios dup_sc end.

(** Lines 70-75. *)
Definition docs_lines (doc_issues : list (pystr * pystr)) : list line :=
  match doc_issues with
  | [] => [LDocsOk]
  | _ => LDocsHeader :: List.map (λ kv, LDocIssue (fst kv) (snd kv)) doc_issues
  end.

(** Lines 83-88. *)
Definition anti_lines (nl_patterns : list (json * pystr)) : list line :=
  match nl_patterns with
  | [] => [LAntiOk]
  | _ => LAntiHeader :: List.map (λ ip, LAntiItem (fst ip) (snd ip)) nl_patterns
  end.

Fixpoint print_all (ls : list line) : prog unit :=
  match ls with
  | [] => mret tt
  | l :: rest => print l;; print_all rest
  end.

(** Lines 31-96. *)
Definition main (argv : list pystr) : prog unit :=
  (if Nat.ltb (length argv) 2 then print LUsage;; sys_exit 1 else mret tt);;
  path ← lift (from_option Ok (Raise IndexError) (argv !! 1%nat));
  data ← try_except (load_json path)
                    (λ e, print (LParseFail e);; sys_exit 2;; mret JNull);
  print LParseOk;;
  chapters ← lift (chapters_of data);
  scenarios ← lift (scenarios_of data);
  n_chapters ← lift (Py.len chapters);
  n_scenarios ← lift (Py.len scenarios);
  print (LSummary n_chapters n_scenarios);;
  dup_ch ← lift (check_unique_ids chapters);
  dup_sc ← lift (check_unique_ids scenarios);
  print (chapters_line dup_ch);;
  print (scenarios_line dup_sc);;
  l ← lift (contact_line data);
  print l;;
  doc_issues ← lift (doc_issues_of data);
  print_all (docs_lines doc_issues);;
  nl_patterns ← lift (nl_patterns_of data);
  print_all (anti_lines nl_patterns);;
  let out := output_path path in
  write_json data out;;
  print (LWritten out);;
  print LNextSteps;;
  print (LSuggestion 1);;
  print (LSuggestion 2);;
  print (LSuggestion 3).

(** One invocation: the command line [argv] (program name first) in a
    file system [fs], nothing printed yet. *)
Definition run (argv : list pystr) (fs : gmap (list N) (list N)) : res unit * world :=
  main argv {| files := fs; stdout := [] |}.

End Script.

(** ** A reference instance of the json module

    An executable printer and parser for the documents of the model, in the
    format [json.dump(obj, f, ensure_ascii=False, indent=2)] writes.  The
    parser reports every syntax error as one [JSONDecodeError]; number
    literals with a fraction or an exponent are outside the model and are
    rejected. *)

Module RefJson.

Definition ch (a : ascii) : N := N_of_ascii a.
Definition quote : N := 0x22%N.
Definition backslash : N := 0x5C%N.

Definition hexdigit (n : N) : N :=
  (if n <? 10 then ch "0" + n else ch "a" + (n - 10))%N.

(** One character inside a string literal, with [ensure_ascii=False]:
    only the quote, the backslash and the control characters below
    U+0020 are escaped. *)
Definition escape (c : N) : pystr :=
  (if c =? quote then [backslash; quote]
   else if c =? backslash then [backslash; backslash]
   else if c =? 0x0A then [backslash; ch "n"]
   else if c =? 0x0D then [backslash; ch "r"]
   else if c =? 0x09 then [backslash; ch "t"]
   else if c =? 0x08 then [backslash; ch "b"]
   else if c =? 0x0C then [backslash; ch "f"]
   else if c <? 0x20
        then [backslash; ch "u"; ch "0"; ch "0"; hexdigit (c / 16); hexdigit (c mod 16)]
   else [c])%N.

Definition encode_str (s : pystr) : pystr :=
  quote :: concat (List.map escape s) ++ [quote].

Definition encode_int (z : Z) : pystr :=
  str (NilZero.string_of_int (Z.to_int z)).

(** A line break followed by the indentation of nesting depth [level]. *)
Definition newline_indent (level : nat) : pystr :=
  0x0A%N :: repeat 0x20%N (2 * level).

(** The piece written for a value that is not a list or a dict. *)
Definition scalar (v : json) : pystr :=
  match v with
  | JNull => str "null"
  | JBool true => str "true"
  | JBool false => str "false"
  | JInt z => encode_int z
  | JStr s => encode_str s
  | JArr _ | JObj _ => []
  end.

(** The pieces for a value at nesting depth [level], as the generator
    behind [json.dump] yields them. *)
Fixpoint iterencode (level : nat) (v : json) : list pystr :=
  match v with
  | JArr [] => [str "[]"]
  | JArr items =>
      (fix each (buf : pystr) (l : list json) : list pystr :=
         match l with
         | [] => []
         | x :: rest =>
             match x with
             | JArr _ | JObj _ => buf :: iterencode (S level) x
             | _ => [buf ++ scalar x]
             end ++ each (str "," ++ newline_indent (S level)) rest
         end) (str "[" ++ newline_indent (S level)) items
      ++ [newline_indent level; str "]"]
  | JObj [] => [str "{}"]
  | JObj entries =>
      str "{" :: newline_indent (S level)
      :: (fix each (first : bool) (l : list (pystr * json)) : list pystr :=
            match l with
            | [] => []
            | (k, x) :: rest =>
                (if first then [] else [str "," ++ newline_indent (S level)])
                ++ [encode_str k; str ": "] ++ iterencode (S level) x
                ++ each false rest
            end) true entries
      ++ [newline_indent level; str "}"]
  | _ => [scalar v]
  end.

Definition dumps (v : json) : pystr := concat (iterencode 0 v).

(** *** Parsing *)

Definition is_ws (c : N) : bool :=
  ((c =? 0x20) || (c =? 0x09) || (c =? 0x0A) || (c =? 0x0D))%N.

Fixpoint skip_ws (s : pystr) : pystr :=
  match s with
  | c :: s' => if is_ws c then skip_ws s' else s
  | [] => []
  end.

Definition hexval (c : N) : option N :=
  (if (ch "0" <=? c) && (c <=? ch "9") then Some (c - ch "0")
   else if (ch "a" <=? c) && (c <=? ch "f") then Some (c - ch "a" + 10)
   else if (ch "A" <=? c) && (c <=? ch "F") then Some (c - ch "A" + 10)
   else None)%N.

Definition hex4 (a b c d : N) : option N :=
  x ← hexval a; y ← hexval b; z ← hexval c; w ← hexval d;
  Some (((x * 16 + y) * 16 + z) * 16 + w)%N.

(** The characters of a string literal after its opening quote, up to
    the closing quote; [acc] is the text decoded so far. *)
Fixpoint p_chars (acc s : pystr) : option (pystr * pystr) :=
  match s with
  | [] => None
  | c :: s1 =>
      if (c =? quote)%N then Some (acc, s1)
      else if (c <? 0x20)%N then None
      else if negb (c =? backslash)%N then p_chars (acc ++ [c]) s1
      else
        match s1 with
        | [] => None
        | e :: s2 =>
            if (e =? quote)%N then p_chars (acc ++ [quote]) s2
            else if (e =? backslash)%N then p_chars (acc ++ [backslash]) s2
            else if (e =? ch "/")%N then p_chars (acc ++ [ch "/"]) s2
            else if (e =? ch "b")%N then p_chars (acc ++ [0x08%N]) s2
            else if (e =? ch "f")%N then p_chars (acc ++ [0x0C%N]) s2
            else if (e =? ch "n")%N then p_chars (acc ++ [0x0A%N]) s2
            else if (e =? ch "r")%N then p_chars (acc ++ [0x0D%N]) s2
            else if (e =? ch "t")%N then p_chars (acc ++ [0x09%N]) s2
            else if negb (e =? ch "u")%N then None
            else
              match s2 with
              | a :: b :: c' :: d :: s3 =>
                  match hex4 a b c' d with
                  | None => None
                  | Some hi =>
                      match s3 with
                      | b1 :: u1 :: a2 :: b2 :: c2 :: d2 :: s4 =>
                          if ((0xD800 <=? hi) && (hi <=? 0xDBFF)
                              && (b1 =? backslash) && (u1 =? ch "u"))%N
                          then
                            match hex4 a2 b2 c2 d2 with
                            | None => None
                            | Some lo =>
                                if ((0xDC00 <=? lo) && (lo <=? 0xDFFF))%N
                                then p_chars (acc ++ [0x10000 + (hi - 0xD800) * 0x400 + (lo - 0xDC00)]%N) s4
                                else p_chars (acc ++ [hi]) s3
                            end
                          else p_chars (acc ++ [hi]) s3
                      | _ => p_chars (acc ++ [hi]) s3
                      end
                  end
              | _ => None
              end
        end
  end.

Definition is_digit (c : N) : bool := ((ch "0" <=? c) && (c <=? ch "9"))%N.

Fixpoint p_digits (acc : Z) (s : pystr) : Z * pystr :=
  match s with
  | c :: s' =>
      if is_digit c then p_digits (10 * acc + Z.of_N (c - ch "0")) s' else (acc, s)
  | [] => (acc, [])
  end.

(** The integer part of a number literal: [0] or a digit sequence
    without leading zero. *)
Definition p_nat (s : pystr) : option (Z * pystr) :=
  match s with
  | c :: s' =>
      if (c =? ch "0")%N then Some (0, s')
      else if is_digit c then Some (p_digits 0 s)
      else None
  | [] => None
  end.

Definition p_int (s : pystr) : option (json * pystr) :=
  match s with
  | c :: s' =>
      if (c =? ch "-")%N
      then '(n, r) ← p_nat s'; Some (JInt (- n), r)
      else '(n, r) ← p_nat s; Some (JInt n, r)
  | [] => None
  end.

(** [d[k] = v] on the entries of a dict: an existing key keeps its place
    and takes the new value. *)
Fixpoint dict_set (k : pystr) (v : json) (entries : list (pystr * json))
  : list (pystr * json) :=
  match entries with
  | [] => [(k, v)]
  | (k', v') :: rest =>
      if PyStr.eqb k' k then (k', v) :: rest else (k', v') :: dict_set k v rest
  end.

Definition drop_prefix (p s : pystr) : option pystr :=
  if PyStr.startswith p s then Some (skipn (length p) s) else None.

Fixpoint p_value (fuel : nat) (s : pystr) : option (json * pystr) :=
  match fuel with
  | O => None
  | S fuel =>
      match s with
      | [] => None
      | c :: s' =>
          if (c =? quote)%N then '(t, r) ← p_chars [] s'; Some (JStr t, r)
          else if (c =? ch "{")%N then
            match skip_ws s' with
            | c' :: r => if (c' =? ch "}")%N then Some (JObj [], r)
                         else p_members fuel [] (c' :: r)
            | [] => None
            end
          else if (c =? ch "[")%N then
            match skip_ws s' with
            | c' :: r => if (c' =? ch "]")%N then Some (JArr [], r)
                         else p_items fuel [] (c' :: r)
            | [] => None
            end
          else if PyStr.startswith (str "null") s then r ← drop_prefix (str "null") s; Some (JNull, r)
          else if PyStr.startswith (str "true") s then r ← drop_prefix (str "true") s; Some (JBool true, r)
          else if PyStr.startswith (str "false") s then r ← drop_prefix (str "false") s; Some (JBool false, r)
          else p_int s
      end
  end
with p_items (fuel : nat) (acc : list json) (s : pystr) : option (json * pystr) :=
  match fuel with
  | O => None
  | S fuel =>
      '(v, r) ← p_value fuel s;
      match skip_ws r with
      | c :: r' =>
          if (c =? ch ",")%N then p_items fuel (acc ++ [v]) (skip_ws r')
          else if (c =? ch "]")%N then Some (JArr (acc ++ [v]), r')
          else None
      | [] => None
      end
  end
with p_members (fuel : nat) (acc : list (pystr * json)) (s : pystr) : option (json * pystr) :=
  match fuel with
  | O => None
  | S fuel =>
      match s with
      | c :: s' =>
          if negb (c =? quote)%N then None else
          '(k, r) ← p_chars [] s';
          match skip_ws r with
          | c1 :: r1 =>
              if negb (c1 =? ch ":")%N then None else
              '(v, r2) ← p_value fuel (skip_ws r1);
              match skip_ws r2 with
              | c2 :: r3 =>
                  if (c2 =? ch ",")%N then p_members fuel (dict_set k v acc) (skip_ws r3)
                  else if (c2 =? ch "}")%N then Some (JObj (dict_set k v acc), r3)
                  else None
              | [] => None
              end
          | [] => None
          end
      | [] => None
      end
  end.

Definition syntax_error : exn := JSONDecodeError (str "invalid JSON").

(** A whole text: one value between optional whitespace, nothing after
    it, no byte order mark before it. *)
Definition loads (text : pystr) : result json :=
  match p_value (2 * length text + 2) (skip_ws text) with
  | Some (v, r) => match skip_ws r with [] => Ok v | _ => Raise syntax_error end
  | None => Raise syntax_error
  end.

Definition ref_json : JsonModule :=
  {| json_loads := loads; json_iterencode := iterencode 0 |}.

End RefJson.

(** The program name, as [sys.argv[0]] in the worked examples. *)
Definition script : pystr := str "validate_bible_cho_yao.py".

(** ** Sample documents *)

Module Sample.

(** [{"meta": {"maintainer": {"contact": c}}}]. *)
Definition with_contact (c : json) : json :=
  JObj [(str "meta", JObj [(str "maintainer", JObj [(str "contact", c)])])].

(** [{"safeguards": {"anti_abuse": anti}}]. *)
Definition with_anti_abuse (anti : json) : json :=
  JObj [(str "safeguards", JObj [(str "anti_abuse", anti)])].

(** [{"docs": docs}]. *)
Definition with_docs (docs : json) : json := JObj [(str "docs", docs)].

(** An anti-abuse record with the given [id] and [pattern]. *)
Definition rule (id : string) (pattern : json) : json :=
  JObj [(str "id", JStr (str id)); (str "pattern", pattern)].

Definition four_tokens : pystr := str "no spam or scams".
Definition seven_tokens : pystr := str "do not allow spam or scam attempts".

(** A record that carries only an [id]. *)
Definition record (id : json) : json := JObj [(str "id", id)].

End Sample.

(** ** The properties, in the specification's words *)

Module Spec.

(** [sub] occurs somewhere in [s]. *)
Definition substring (sub s : pystr) : Prop :=
  ∃ pre post, s = pre ++ sub ++ post.

(** Number of whitespace-delimited tokens: the positions where a
    non-whitespace character follows the start of the string or a
    whitespace character. *)
Fixpoint token_starts (after_space : bool) (s : pystr) : nat :=
  match s with
  | [] => 0
  | c :: s' =>
      if PyStr.isspace c then token_starts true s'
      else ((if after_space then 1 else 0) + token_starts false s')%nat
  end.

Definition token_count (s : pystr) : nat := token_starts true s.


Definition member (k : pystr) (dflt : json) (entries : list (pystr * json)) : json :=
  default dflt (Py.assoc k entries).


(** CheckAntiAbusePatterns: for every record whose [pattern] is a string
    of more than 4 whitespace-delimited tokens, the record's [id] (None
    when absent) and the pattern. *)
Fixpoint flagged (anti : list json) : list (json * pystr) :=
  match anti with
  | [] => []
  | JObj entries :: rest =>
      match member (str "pattern") (JStr []) entries with
      | JStr p =>
          if Nat.ltb 4 (token_count p)
          then (member (str "id") JNull entries, p) :: flagged rest
          else flagged rest
      | _ => flagged rest
      end
  | _ :: rest => flagged rest
  end.

(** Everything a run without error prints, in order. *)
Definition report (n m : nat) (dup_ch dup_sc : list json) (contact : line)
    (doc_issues : list (pystr * pystr)) (nl_patterns : list (json * pystr))
    (out : pystr) : list line :=
  [LParseOk; LSummary n m; chapters_line dup_ch; scenarios_line dup_sc; contact]
  ++ docs_lines doc_issues ++ anti_lines nl_patterns
  ++ [LWritten out; LNextSteps; LSuggestion 1; LSuggestion 2; LSuggestion 3].

(** DeriveOutputPath: a trailing [.json] is dropped when there is one,
    then [.cleaned.json] is appended. *)
Definition strip_suffix (suffix s : pystr) : pystr :=
  if PyStr.startswith (rev suffix) (rev s)
  then firstn (length s - length suffix) s
  else s.

Definition derive_output_path (path : pystr) : pystr :=
  strip_suffix (str ".json") path ++ str ".cleaned.json".

Definition f_contact : list pystr := [str "meta"; str "maintainer"; str "contact"].

(** A field is present in a document: its keys lead, object by object,
    to a value. *)
Fixpoint present (keys : list pystr) (d : json) : bool :=
  match keys with
  | [] => true
  | k :: rest =>
      match d with
      | JObj entries =>
          match Py.assoc k entries with
          | Some v => present rest v
          | None => false
          end
      | _ => false
      end
  end.

(** A field is missing from a document: on the way down through
    objects, one of its keys is not there. *)
Fixpoint missing (keys : list pystr) (d : json) : bool :=
  match keys, d with
  | k :: rest, JObj entries =>
      match Py.assoc k entries with
      | None => true
      | Some v => missing rest v
      end
  | _, _ => false
  end.

(** Lines 43-48 return: the two counts and the two lists of duplicates. *)
Definition ids_checked (data : json) (n m : nat) (dup_ch dup_sc : list json) : Prop :=
  ∃ chapters scenarios,
    chapters_of data = Ok chapters ∧ scenarios_of data = Ok scenarios
    ∧ Py.len chapters = Ok n ∧ Py.len scenarios = Ok m
    ∧ check_unique_ids chapters = Ok dup_ch
    ∧ check_unique_ids scenarios = Ok dup_sc.

(** How many of [ids] are the same dictionary key as [x]. *)
Definition occurrences (x : json) (ids : list json) : nat :=
  length (List.filter (Py.same_key x) ids).

(** What a counter of [ids] holds: one entry per key, under an id of
    that key, with the number of ids of that key. *)
Definition counts (ids : list json) (c : list (json * nat)) : Prop :=
  NoDup (List.map (λ kn, Py.key_of (fst kn)) c)
  ∧ (∀ k n, In (k, n) c → In k ids ∧ n = occurrences k ids)
  ∧ (∀ x, In x ids → ∃ k n, In (k, n) c ∧ Py.same_key k x = true).

End Spec.

(** ** The documents the checks can read *)

Module Shape.

(** Lines 43-91 without the printing: the checks in the order in which
    [main] evaluates them, up to the first that raises. *)
Definition all_checks (data : json)
  : result (nat * nat * list json * list json * line
            * list (pystr * pystr) * list (json * pystr)) :=
  chapters ← chapters_of data;
  scenarios ← scenarios_of data;
  n ← Py.len chapters;
  m ← Py.len scenarios;
  dup_ch ← check_unique_ids chapters;
  dup_sc ← check_unique_ids scenarios;
  l ← contact_line data;
  doc_issues ← doc_issues_of data;
  nl_patterns ← nl_patterns_of data;
  mret (n, m, dup_ch, dup_sc, l, doc_issues, nl_patterns).

(** [x == sub] for a string [sub]. *)
Definition is_text (sub : pystr) (x : json) : bool :=
  match x with
  | JStr t => PyStr.eqb t sub
  | _ => false
  end.


(** A contact line 60 accepts: a string, or a list or mapping that has
    one of the two placeholder texts as an element or key. *)
Definition contact_readable (contact : json) : bool :=
  match contact with
  | JStr _ => true
  | JArr items =>
      existsb (is_text (str "example.org")) items || existsb (is_text (str "replace")) items
  | JObj entries =>
      Py.has_key (str "example.org") entries || Py.has_key (str "replace") entries
  | _ => false
  end.



(** [load_json path] raises [e]: the file is not there, or the parser
    rejects its text. *)
Definition load_raises {J : JsonModule} (fs : gmap (list N) (list N))
    (path : pystr) (e : exn) : Prop :=
  (fs !! path = None ∧ e = FileNotFoundError)
  ∨ (∃ text, fs !! path = Some text ∧ json_loads text = Raise e).

(** The ids of [ids] that no earlier id shares its key with. *)
Fixpoint firsts (seen ids : list json) : list json :=
  match ids with
  | [] => []
  | x :: rest =>
      if existsb (λ k, Py.same_key k x) seen
      then firsts seen rest
      else x :: firsts (seen ++ [x]) rest
  end.

End Shape.

(** * Properties *)

(** ** Strings *)

Module PyStrFacts.
Import PyStr.

Lemma eqb_true a b : eqb a b = true ↔ a = b.
Proof. unfold eqb. apply bool_decide_eq_true. Qed.

Lemma eqb_refl a : eqb a a = true.
Proof. by apply eqb_true. Qed.

Lemma startswith_prefix p s : startswith p s = true ↔ ∃ post, s = p ++ post.
Proof.
  revert s. induction p as [|a p IH]; intros s; simpl.
  - split; eauto.
  - destruct s as [|b s]; simpl.
    + split; [done | intros [post H]; discriminate].
    + rewrite andb_true_iff, N.eqb_eq, IH. split.
      * intros [-> [post ->]]. eauto.
      * intros [post H]. injection H as -> ->. eauto.
Qed.

Lemma startswith_refl p post : startswith p (p ++ post) = true.
Proof. apply startswith_prefix. eauto. Qed.

(** [sub in s] holds exactly when [sub] occurs in [s]. *)
Lemma contains_substring sub s : contains sub s = true ↔ Spec.substring sub s.
Proof.
  unfold Spec.substring. induction s as [|c s IH]; simpl.
  - rewrite orb_false_r, startswith_prefix. split.
    + intros [post H]. exists [], post. done.
    + intros [pre [post H]]. destruct pre; [eauto | discriminate].
  - rewrite orb_true_iff, startswith_prefix, IH. split.
    + intros [[post H] | [pre [post H]]].
      * exists [], post. done.
      * exists (c :: pre), post. by rewrite H.
    + intros [pre [post H]]. destruct pre as [|c' pre]; simpl in H.
      * left. eauto.
      * right. injection H as _ H. eauto.
Qed.

Lemma contains_char c s : contains [c] s = true ↔ In c s.
Proof.
  induction s as [|a s IH]; simpl.
  - split; [done | tauto].
  - rewrite orb_true_iff, IH, andb_true_r, N.eqb_eq.
    destruct s; split; intros [H | H]; auto.
Qed.

Lemma lstrip_nil s : lstrip s = [] ↔ Forall (λ c, isspace c = true) s.
Proof.
  induction s as [|c s IH]; simpl.
  - split; auto.
  - destruct (isspace c) eqn:E.
    + rewrite IH. split; [by constructor | by inversion 1].
    + split; [done | inversion 1; congruence].
Qed.

Lemma lstrip_head s c r : lstrip s = c :: r → isspace c = false.
Proof.
  induction s as [|a s IH]; simpl; [done |].
  destruct (isspace a) eqn:E; [done |]. by intros [= <- _].
Qed.

Lemma lstrip_suffix s : ∃ pre, s = pre ++ lstrip s ∧ Forall (λ c, isspace c = true) pre.
Proof.
  induction s as [|a s [pre [H1 H2]]]; simpl.
  - by exists [].
  - destruct (isspace a) eqn:E.
    + exists (a :: pre). split; [simpl; congruence | by constructor].
    + by exists [].
Qed.

(** [s.strip() == ''] holds exactly when [s] is whitespace only. *)
Lemma strip_nil s : strip s = [] ↔ Forall (λ c, isspace c = true) s.
Proof.
  unfold strip, rstrip. split.
  - intros H. apply (f_equal (@rev N)) in H. rewrite rev_involutive in H. simpl in H.
    apply lstrip_nil in H. destruct (lstrip s) as [|c r] eqn:E.
    + by apply lstrip_nil.
    + apply lstrip_head in E. rewrite List.Forall_forall in H.
      rewrite (H c) in E; [done |]. apply in_rev. rewrite rev_involutive. by left.
  - intros H. apply lstrip_nil in H. rewrite H. done.
Qed.

Lemma split_from_length tok s :
  length (split_from tok s) =
  match tok with
  | [] => Spec.token_starts true s
  | _ => S (Spec.token_starts false s)
  end.
Proof.
  revert tok. induction s as [|c s IH]; intros tok; simpl.
  - by destruct tok.
  - destruct (isspace c).
    + destruct tok; simpl; rewrite (IH []); done.
    + rewrite IH. destruct tok; done.
Qed.

(** [len(p.split())] is the number of whitespace-delimited tokens. *)
Lemma split_length s : length (split s) = Spec.token_count s.
Proof. apply (split_from_length []). Qed.

Lemma split_from_concat tok s :
  concat (split_from tok s) = tok ++ List.filter (λ c, negb (isspace c)) s.
Proof.
  revert tok. induction s as [|c s IH]; intros tok; simpl.
  - destruct tok; simpl; by rewrite ?app_nil_r.
  - destruct (isspace c); simpl.
    + destruct tok; simpl; by rewrite (IH []).
    + rewrite IH. by rewrite <- app_assoc.
Qed.

(** The tokens, put together, are the string without its whitespace. *)
Lemma split_concat s : concat (split s) = List.filter (λ c, negb (isspace c)) s.
Proof. apply (split_from_concat []). Qed.

Lemma split_from_tokens tok s :
  Forall (λ c, isspace c = false) tok →
  Forall (λ t, t ≠ [] ∧ Forall (λ c, isspace c = false) t) (split_from tok s).
Proof.
  revert tok. induction s as [|c s IH]; intros tok Htok; simpl.
  - destruct tok as [|a tok]; [constructor |].
    constructor; [by split | constructor].
  - destruct (isspace c) eqn:E.
    + destruct tok; [by apply IH | constructor; [done | by apply IH]].
    + apply IH. apply Forall_app. split; [done | by repeat constructor].
Qed.

(** Every token is non-empty and free of whitespace. *)
Lemma split_tokens s :
  Forall (λ t, t ≠ [] ∧ Forall (λ c, isspace c = false) t) (split s).
Proof. by apply split_from_tokens. Qed.

Lemma contains_cons_false sub c s :
  contains sub (c :: s) = false → startswith sub (c :: s) = false ∧ contains sub s = false.
Proof. simpl. by intros [? ?]%orb_false_iff. Qed.

Lemma replace_from_skip old new k s :
  replace_from old new k s = replace_from old new 0 (skipn k s).
Proof.
  revert k. induction s as [|c s IH]; intros [|k]; simpl; done.
Qed.

(** Nothing to replace: the string is returned as it is. *)
Lemma replace_absent old new s : contains old s = false → replace old new s = s.
Proof.
  unfold replace. induction s as [|c s IH]; [done |].
  intros [H1 H2]%contains_cons_false.
  change (replace_from old new 0 (c :: s))
    with (if startswith old (c :: s)
          then new ++ replace_from old new (Nat.pred (length old)) s
          else c :: replace_from old new 0 s).
  rewrite H1, IH; done.
Qed.

(** One occurrence, at the very end. *)
Lemma replace_trailing old new stem :
  contains old (stem ++ removelast old) = false →
  replace old new (stem ++ old) = stem ++ new.
Proof.
  unfold replace. induction stem as [|c stem IH]; intros H.
  - destruct old as [|a o]; [done |]. simpl app.
    change (replace_from (a :: o) new 0 (a :: o))
      with (if startswith (a :: o) (a :: o)
            then new ++ replace_from (a :: o) new (length o) o
            else a :: replace_from (a :: o) new 0 o).
    pose proof (startswith_refl (a :: o) []) as Hs. rewrite app_nil_r in Hs. rewrite Hs.
    rewrite replace_from_skip, skipn_all. simpl. by rewrite app_nil_r.
  - simpl app in *. apply contains_cons_false in H as [H1 H2].
    change (replace_from old new 0 (c :: stem ++ old))
      with (if startswith old (c :: stem ++ old)
            then new ++ replace_from old new (Nat.pred (length old)) (stem ++ old)
            else c :: replace_from old new 0 (stem ++ old)).
    destruct (startswith old (c :: stem ++ old)) eqn:E.
    + exfalso. apply startswith_prefix in E as [post E].
      destruct old as [|a o]; [done |].
      destruct (exists_last (l:=post)) as [post' [x Hp]].
      { intros ->. rewrite app_nil_r in E. apply (f_equal (@length N)) in E.
        simpl in E. rewrite length_app in E. simpl in E. lia. }
      destruct (exists_last (l:=a :: o)) as [o' [y Ho]]; [done |].
      rewrite Ho in E at 1. rewrite Hp in E.
      change (c :: stem ++ o' ++ [y]) with ((c :: stem) ++ o' ++ [y]) in E.
      rewrite !app_assoc in E. apply app_inj_tail in E as [E _].
      assert (removelast (a :: o) = o') as Hr.
      { rewrite Ho. apply removelast_last. }
      rewrite Hr in H1. simpl app in E. rewrite E in H1.
      pose proof (startswith_refl (a :: o) post') as Hs. simpl app in Hs. congruence.
    + f_equal. by apply IH.
Qed.

Lemma startswith_length p s : startswith p s = true → (length p ≤ length s)%nat.
Proof.
  intros [post ->]%startswith_prefix. rewrite length_app. lia.
Qed.

(** Deleting the occurrences of [old] shortens the string by a multiple of
    the length of [old]. *)
Lemma replace_delete_length old s :
  old ≠ [] →
  ∃ k, length s = (length (replace old [] s) + k * length old)%nat.
Proof.
  intros Hold. unfold replace.
  remember (length s) as n eqn:Hn. revert s Hn.
  induction n as [n IH] using lt_wf_ind. intros s ->.
  destruct s as [|c s].
  - by exists 0%nat.
  - change (replace_from old [] 0 (c :: s))
      with (if startswith old (c :: s)
            then [] ++ replace_from old [] (Nat.pred (length old)) s
            else c :: replace_from old [] 0 s).
    destruct (startswith old (c :: s)) eqn:E.
    + apply startswith_length in E. simpl in E.
      assert (0 < length old)%nat by (destruct old; [done | simpl; lia]).
      rewrite replace_from_skip. simpl app.
      destruct (IH (length (skipn (Nat.pred (length old)) s))) with
        (s := skipn (Nat.pred (length old)) s) as [k Hk];
        [rewrite length_skipn; simpl; lia | done |].
      exists (S k). rewrite length_skipn in Hk. simpl. lia.
    + destruct (IH (length s)) with (s := s) as [k Hk]; [simpl; lia | done |].
      exists k. simpl. lia.
Qed.

End PyStrFacts.

(** ** Dictionary keys and Counter *)

Module PyFacts.
Import Py.

Lemma same_key_eq x y : same_key x y = true ↔ key_of x = key_of y.
Proof. unfold same_key. apply bool_decide_eq_true. Qed.

Lemma same_key_neq x y : same_key x y = false ↔ key_of x ≠ key_of y.
Proof. unfold same_key. apply bool_decide_eq_false. Qed.

Lemma same_key_refl x : same_key x x = true.
Proof. by apply same_key_eq. Qed.

Lemma occurrences_app x l1 l2 :
  Spec.occurrences x (l1 ++ l2) = (Spec.occurrences x l1 + Spec.occurrences x l2)%nat.
Proof. unfold Spec.occurrences. by rewrite List.filter_app, length_app. Qed.

Lemma occurrences_same x y ids :
  same_key x y = true → Spec.occurrences x ids = Spec.occurrences y ids.
Proof.
  intros H%same_key_eq. unfold Spec.occurrences. f_equal.
  apply List.filter_ext. intros a. unfold same_key. by rewrite H.
Qed.

Lemma occurrences_pos x ids : In x ids → (0 < Spec.occurrences x ids)%nat.
Proof.
  intros H. unfold Spec.occurrences.
  assert (In x (List.filter (same_key x) ids)) as Hin
    by (apply List.filter_In; split; [done | apply same_key_refl]).
  destruct (List.filter (same_key x) ids); [done | simpl; lia].
Qed.

(** The two cases of [tally]: the first entry of the same key is
    incremented, or a new entry is added at the end. *)
Lemma tally_cases x c :
  (∃ c1 k n c2, c = c1 ++ (k, n) :: c2 ∧ same_key k x = true
     ∧ tally x c = c1 ++ (k, S n) :: c2)
  ∨ ((∀ k n, In (k, n) c → same_key k x = false) ∧ tally x c = c ++ [(x, 1%nat)]).
Proof.
  induction c as [|[k n] c IH]; simpl.
  - right. split; [by intros ? ? [] | done].
  - destruct (same_key k x) eqn:E.
    + left. by exists [], k, n, c.
    + destruct IH as [(c1 & k' & n' & c2 & -> & Hk & ->) | [Hno ->]].
      * left. by exists ((k, n) :: c1), k', n', c2.
      * right. split; [| done]. intros k' n' [[= <- <-] | Hin]; eauto.
Qed.

Lemma counts_nil : Spec.counts [] [].
Proof.
  split; [constructor | split]; [by intros ? ? [] | by intros ? []].
Qed.

Lemma counts_tally ids c x :
  Spec.counts ids c → Spec.counts (ids ++ [x]) (tally x c).
Proof.
  intros (Hnd & Hc & Hall).
  assert (∀ k, Spec.occurrences k (ids ++ [x])
               = (Spec.occurrences k ids + if same_key k x then 1 else 0)%nat) as Hocc.
  { intros k. rewrite occurrences_app. unfold Spec.occurrences at 2. simpl.
    by destruct (same_key k x). }
  destruct (tally_cases x c) as [(c1 & k & n & c2 & -> & Hk & ->) | [Hno ->]].
  - rewrite List.map_app in Hnd. simpl in Hnd.
    split; [by rewrite List.map_app | split].
    + intros k' n' Hin. rewrite Hocc.
      apply NoDup_app in Hnd as (_ & Hdisj & [Hnot _]%NoDup_cons).
      apply same_key_eq in Hk as Hkx.
      assert (In (k', n') (c1 ++ (k, n) :: c2) ∧ same_key k' x = false
              ∨ (k' = k ∧ n' = S n)) as [[Hin' Hne] | [-> ->]].
      { apply in_app_or in Hin as [Hin | [[= <- <-] | Hin]]; [left | by right | left].
        - split; [apply in_or_app; by left |]. apply same_key_neq. intros Heq.
          apply (Hdisj (key_of k')).
          + apply list_elem_of_In.
            by apply (List.in_map (λ kn, key_of (fst kn)) _ (k', n')).
          + rewrite Heq, <- Hkx. by left.
        - split; [apply in_or_app; right; by right |]. apply same_key_neq. intros Heq.
          apply Hnot. rewrite Hkx, <- Heq. apply list_elem_of_In.
          by apply (List.in_map (λ kn, key_of (fst kn)) _ (k', n')). }
      * destruct (Hc _ _ Hin') as [? ->]. rewrite Hne.
        split; [apply in_or_app; by left | lia].
      * destruct (Hc k n) as [? ->]; [apply in_or_app; right; by left |].
        rewrite Hk. split; [apply in_or_app; by left | lia].
    + intros y [Hy | [<- | []]]%in_app_or.
      * destruct (Hall y Hy) as (k' & n' & Hin & Hs).
        apply in_app_or in Hin as [Hin | [[= <- <-] | Hin]].
        -- exists k', n'. split; [apply in_or_app; by left | done].
        -- exists k, (S n). split; [apply in_or_app; right; by left | done].
        -- exists k', n'. split; [apply in_or_app; right; by right | done].
      * exists k, (S n). split; [apply in_or_app; right; by left | done].
  - split; [| split].
    + rewrite List.map_app. simpl. apply NoDup_app. split; [done | split].
      * intros key Hin [<- | []]%list_elem_of_In. apply list_elem_of_In in Hin.
        apply List.in_map_iff in Hin as ([k n] & Heq & Hin). simpl in Heq.
        apply Hno in Hin. by apply same_key_neq in Hin.
      * apply NoDup_singleton.
    + intros k n [Hin | [[= <- <-] | []]]%in_app_or; rewrite Hocc.
      * destruct (Hc _ _ Hin) as [? ->]. rewrite (Hno _ _ Hin).
        split; [apply in_or_app; by left | lia].
      * rewrite same_key_refl. split; [apply in_or_app; right; by left |].
        assert (Spec.occurrences x ids = 0%nat) as ->; [| done].
        unfold Spec.occurrences.
        destruct (List.filter (same_key x) ids) as [|y l] eqn:E; [done |].
        assert (In y (List.filter (same_key x) ids)) as Hy by (rewrite E; by left).
        apply List.filter_In in Hy as [Hy Hs].
        destruct (Hall y Hy) as (k' & n' & Hin & Hs').
        apply Hno in Hin. apply same_key_neq in Hin.
        apply same_key_eq in Hs, Hs'. congruence.
    + intros y [Hy | [<- | []]]%in_app_or.
      * destruct (Hall y Hy) as (k' & n' & Hin & Hs).
        exists k', n'. split; [apply in_or_app; by left | done].
      * exists x, 1%nat. split; [apply in_or_app; right; by left | apply same_key_refl].
Qed.

Lemma counts_fold ids xs c :
  Spec.counts ids c → Spec.counts (ids ++ xs) (fold_left (λ c k, tally k c) xs c).
Proof.
  revert ids c. induction xs as [|x xs IH]; intros ids c H; simpl.
  - by rewrite app_nil_r.
  - replace (ids ++ x :: xs) with ((ids ++ [x]) ++ xs) by (by rewrite <- app_assoc).
    apply IH. by apply counts_tally.
Qed.

(** [Counter(ids)] on hashable ids. *)
Lemma Counter_counts ids :
  forallb hashable ids = true → ∃ c, Counter ids = Ok c ∧ Spec.counts ids c.
Proof.
  intros H. unfold Counter. rewrite H. eexists. split; [done |].
  apply (counts_fold [] ids []), counts_nil.
Qed.


End PyFacts.

(** ** Running the script *)

Section ScriptFacts.
Context {J : JsonModule}.

#[local] Arguments chapters_of : simpl never.
#[local] Arguments scenarios_of : simpl never.
#[local] Arguments check_unique_ids : simpl never.
#[local] Arguments contact_line : simpl never.
#[local] Arguments doc_issues_of : simpl never.
#[local] Arguments nl_patterns_of : simpl never.
#[local] Arguments output_path : simpl never.
#[local] Arguments docs_lines : simpl never.
#[local] Arguments anti_lines : simpl never.
#[local] Arguments Py.len : simpl never.

Ltac run_main :=
  unfold run, main, mbind, prog_bind, mret, prog_ret, try_except, load_json,
    lift, print, write_json, sys_exit; cbn.

Tactic Notation "step" constr(H) := rewrite H; cbn.

Lemma print_all_run ls w :
  print_all ls w = (Done tt, {| files := files w; stdout := stdout w ++ ls |}).
Proof.
  revert w. induction ls as [|l ls IH]; intros [f o]; simpl.
  - by rewrite app_nil_r.
  - unfold mbind, prog_bind. simpl. rewrite IH. simpl. by rewrite <- app_assoc.
Qed.

(** Pieces that UTF-8 can encode are all written. *)
Lemma write_chunks_encodable chunks written :
  forallb PyStr.utf8_encodable chunks = true →
  write_chunks chunks written = (written ++ concat chunks, None).
Proof.
  revert written. induction chunks as [|c chunks IH]; intros written; simpl.
  - by rewrite app_nil_r.
  - intros [Hc Hrest]%andb_true_iff. rewrite Hc, IH by done. by rewrite <- app_assoc.
Qed.

(** The first piece that UTF-8 cannot encode stops the writing. *)
Lemma write_chunks_stops before chunk after written :
  forallb PyStr.utf8_encodable before = true →
  PyStr.utf8_encodable chunk = false →
  write_chunks (before ++ chunk :: after) written
  = (written ++ concat before, Some UnicodeEncodeError).
Proof.
  revert written. induction before as [|c before IH]; intros written; simpl.
  - intros _ ->. by rewrite app_nil_r.
  - intros [Hc Hrest]%andb_true_iff Hchunk. rewrite Hc, IH by done.
    by rewrite <- app_assoc.
Qed.

(** Too few arguments: the usage line, then [sys.exit(1)]. *)
Lemma main_usage argv fs :
  (length argv < 2)%nat →
  run argv fs = (Abort (SystemExit 1), {| files := fs; stdout := [LUsage] |}).
Proof.
  intros H. destruct argv as [|argv0 [|path rest]]; simpl in H; [done | done | lia].
Qed.

(** The file cannot be loaded: the error is printed, then [sys.exit(2)]. *)
Lemma main_load_raises argv0 path rest fs text e :
  fs !! path = Some text → json_loads text = Raise e →
  run (argv0 :: path :: rest) fs
  = (Abort (SystemExit 2), {| files := fs; stdout := [LParseFail e] |}).
Proof. intros Hf Hl. run_main. step Hf. by step Hl. Qed.

Lemma main_file_missing argv0 path rest fs :
  fs !! path = None →
  run (argv0 :: path :: rest) fs
  = (Abort (SystemExit 2), {| files := fs; stdout := [LParseFail FileNotFoundError] |}).
Proof. intros Hf. run_main. by step Hf. Qed.

(** All checks return: the whole report is printed and the copy written. *)
Lemma main_report argv0 path rest fs text data ch sc n m dup_ch dup_sc l issues pats :
  fs !! path = Some text → json_loads text = Ok data →
  chapters_of data = Ok ch → scenarios_of data = Ok sc →
  Py.len ch = Ok n → Py.len sc = Ok m →
  check_unique_ids ch = Ok dup_ch → check_unique_ids sc = Ok dup_sc →
  contact_line data = Ok l →
  doc_issues_of data = Ok issues →
  nl_patterns_of data = Ok pats →
  forallb PyStr.utf8_encodable (json_iterencode data) = true →
  run (argv0 :: path :: rest) fs
  = (Done tt,
     {| files := <[output_path path := json_dumps data]> fs;
        stdout := Spec.report n m dup_ch dup_sc l issues pats (output_path path) |}).
Proof.
  intros Hf Hl H1 H2 H3 H4 H5 H6 H7 H8 H9 Henc. run_main.
  step Hf. step Hl. step H1. step H2. step H3. step H4. step H5. step H6.
  step H7. step H8. rewrite print_all_run. cbn. step H9.
  rewrite print_all_run. cbn. rewrite (write_chunks_encodable _ [] Henc). cbn.
  unfold Spec.report, json_dumps.
  by rewrite <- !app_assoc.
Qed.

(** All checks return, a piece of the serialisation cannot be encoded:
    the script stops in [write_json], leaving a truncated output file. *)
Lemma main_write_raises argv0 path rest fs text data ch sc n m dup_ch dup_sc l issues pats
    before chunk after :
  fs !! path = Some text → json_loads text = Ok data →
  chapters_of data = Ok ch → scenarios_of data = Ok sc →
  Py.len ch = Ok n → Py.len sc = Ok m →
  check_unique_ids ch = Ok dup_ch → check_unique_ids sc = Ok dup_sc →
  contact_line data = Ok l →
  doc_issues_of data = Ok issues →
  nl_patterns_of data = Ok pats →
  json_iterencode data = before ++ chunk :: after →
  forallb PyStr.utf8_encodable before = true →
  PyStr.utf8_encodable chunk = false →
  run (argv0 :: path :: rest) fs
  = (Abort (Uncaught UnicodeEncodeError),
     {| files := <[output_path path := concat before]> fs;
        stdout := [LParseOk; LSummary n m; chapters_line dup_ch; scenarios_line dup_sc; l]
                  ++ docs_lines issues ++ anti_lines pats |}).
Proof.
  intros Hf Hl H1 H2 H3 H4 H5 H6 H7 H8 H9 Hchunks Hbefore Hchunk. run_main.
  step Hf. step Hl. step H1. step H2. step H3. step H4. step H5. step H6.
  step H7. step H8. rewrite print_all_run. cbn. step H9.
  rewrite print_all_run. cbn. rewrite Hchunks.
  rewrite (write_chunks_stops _ _ _ [] Hbefore Hchunk). cbn.
  by rewrite <- ?app_assoc.
Qed.

(** The checks on ids return, the maintainer check raises. *)
Lemma main_contact_raises argv0 path rest fs text data ch sc n m dup_ch dup_sc e :
  fs !! path = Some text → json_loads text = Ok data →
  chapters_of data = Ok ch → scenarios_of data = Ok sc →
  Py.len ch = Ok n → Py.len sc = Ok m →
  check_unique_ids ch = Ok dup_ch → check_unique_ids sc = Ok dup_sc →
  contact_line data = Raise e →
  run (argv0 :: path :: rest) fs
  = (Abort (Uncaught e),
     {| files := fs;
        stdout := [LParseOk; LSummary n m; chapters_line dup_ch; scenarios_line dup_sc] |}).
Proof.
  intros Hf Hl H1 H2 H3 H4 H5 H6 H7. run_main.
  step Hf. step Hl. step H1. step H2. step H3. step H4. step H5. step H6.
  by step H7.
Qed.

(** The checks before it return, the anti-abuse check raises. *)
Lemma main_anti_raises argv0 path rest fs text data ch sc n m dup_ch dup_sc l issues e :
  fs !! path = Some text → json_loads text = Ok data →
  chapters_of data = Ok ch → scenarios_of data = Ok sc →
  Py.len ch = Ok n → Py.len sc = Ok m →
  check_unique_ids ch = Ok dup_ch → check_unique_ids sc = Ok dup_sc →
  contact_line data = Ok l →
  doc_issues_of data = Ok issues →
  nl_patterns_of data = Raise e →
  run (argv0 :: path :: rest) fs
  = (Abort (Uncaught e),
     {| files := fs;
        stdout := [LParseOk; LSummary n m; chapters_line dup_ch; scenarios_line dup_sc; l]
                  ++ docs_lines issues |}).
Proof.
  intros Hf Hl H1 H2 H3 H4 H5 H6 H7 H8 H9. run_main.
  step Hf. step Hl. step H1. step H2. step H3. step H4. step H5. step H6.
  step H7. step H8. rewrite print_all_run. cbn. by step H9.
Qed.

End ScriptFacts.

(** ** The checks *)

Module CheckFacts.
Import Py PyFacts PyStrFacts.

Lemma assoc_In k entries v : assoc k entries = Some v → In (k, v) entries.
Proof.
  induction entries as [|[k' v'] entries IH]; simpl; [done |].
  destruct (PyStr.eqb k' k) eqn:E.
  - apply eqb_true in E as ->. intros [= ->]. by left.
  - intros H. right. by apply IH.
Qed.

(** The ids collected are those of the map-shaped elements that have the
    key; every other element contributes nothing. *)
Lemma collect_ids_In key its x :
  In x (collect_ids key its)
  ↔ ∃ entries, In (JObj entries) its ∧ assoc key entries = Some x.
Proof.
  induction its as [|it its IH]; simpl.
  - split; [done | by intros (? & [] & _)].
  - assert (is_dict it = false →
            (In x (collect_ids key its)
             ↔ ∃ entries, (it = JObj entries ∨ In (JObj entries) its)
                          ∧ assoc key entries = Some x)) as Hskip.
    { intros Hd. rewrite IH. split.
      - intros (entries & Hin & Ha). eauto.
      - intros (entries & [-> | Hin] & Ha); [done | eauto]. }
    destruct it as [| | | | |entries]; try (by apply Hskip).
    destruct (assoc key entries) as [v|] eqn:E; simpl; rewrite IH; split.
    + intros [<- | (entries' & Hin & Ha)]; eauto.
    + intros (entries' & [[= <-] | Hin] & Ha); [left; congruence | right; eauto].
    + intros (entries' & Hin & Ha). eauto.
    + intros (entries' & [[= <-] | Hin] & Ha); [congruence | eauto].
Qed.

Lemma collect_ids_dicts key its :
  collect_ids key (List.filter is_dict its) = collect_ids key its.
Proof.
  induction its as [|it its IH]; [done |].
  destruct it; simpl; try done.
  destruct (assoc key _); by rewrite IH.
Qed.

Lemma collect_ids_no_dict key its :
  forallb (λ it, negb (is_dict it)) its = true → collect_ids key its = [].
Proof.
  induction its as [|it its IH]; [done |]. simpl.
  intros [H1 H2]%andb_true_iff. destruct it; try done; by apply IH.
Qed.

Lemma NoDup_map_filter {A B} (f : A → B) (p : A → bool) (l : list A) :
  NoDup (List.map f l) → NoDup (List.map f (List.filter p l)).
Proof.
  induction l as [|a l IH]; simpl; [done |].
  intros [Hnot Hnd]%NoDup_cons. destruct (p a); simpl; [| by apply IH].
  apply NoDup_cons. split; [| by apply IH].
  intros Hin. apply Hnot. apply list_elem_of_In in Hin. apply list_elem_of_In.
  apply List.in_map_iff in Hin as (b & Hb & Hin).
  apply List.filter_In in Hin as [Hin _]. apply List.in_map_iff. eauto.
Qed.

Lemma NoDup_same_image {A B} (f : A → B) (l : list A) a b :
  NoDup (List.map f l) → In a l → In b l → f a = f b → a = b.
Proof.
  induction l as [|c l IH]; simpl; [done |].
  intros [Hnot Hnd]%NoDup_cons [<- | Ha] [<- | Hb] Hf; auto.
  - exfalso. apply Hnot. rewrite Hf. apply list_elem_of_In. by apply List.in_map.
  - exfalso. apply Hnot. rewrite <- Hf. apply list_elem_of_In. by apply List.in_map.
Qed.

(** The duplicates of a counter: one id for each key counted more than
    once. *)
Lemma duplicates_of_counts ids c :
  Spec.counts ids c →
  let dup := List.map fst (List.filter (λ kv, Nat.ltb 1 (snd kv)) c) in
  (∀ k, In k dup → In k ids ∧ (1 < Spec.occurrences k ids)%nat)
  ∧ (∀ x, In x ids → (1 < Spec.occurrences x ids)%nat →
          ∃ k, In k dup ∧ same_key k x = true)
  ∧ NoDup (List.map key_of dup).
Proof.
  intros (Hnd & Hc & Hall) dup. subst dup. split; [| split].
  - intros k ([k' n] & <- & [Hin Hn]%List.filter_In)%List.in_map_iff.
    simpl in *. apply Nat.ltb_lt in Hn. destruct (Hc _ _ Hin) as [? <-]. done.
  - intros x Hx Hocc. destruct (Hall x Hx) as (k & n & Hin & Hs).
    exists k. split; [| done]. apply List.in_map_iff. exists (k, n). split; [done |].
    apply List.filter_In. split; [done |]. simpl. apply Nat.ltb_lt.
    destruct (Hc _ _ Hin) as [_ ->]. by rewrite (occurrences_same k x).
  - rewrite List.map_map. by apply (NoDup_map_filter (λ kn, key_of (fst kn))).
Qed.

Lemma contains_str_eq sub c :
  contains sub (JStr c) = Ok (PyStr.contains sub c).
Proof. done. Qed.

(** The condition of line 60 on a string. *)
Lemma is_placeholder_str c :
  is_placeholder (JStr c)
  = Ok (PyStr.contains (str "example.org") c || PyStr.contains (str "replace") c
        || PyStr.eqb (PyStr.strip c) []).
Proof.
  unfold is_placeholder. simpl.
  destruct (PyStr.contains (str "example.org") c); [done |]. simpl.
  by destruct (PyStr.contains (str "replace") c).
Qed.

Lemma scan_docs_In entries k v :
  In (k, v) (scan_docs entries) ↔ In (k, JStr v) entries ∧ In 0x20%N v.
Proof.
  induction entries as [|[k' v'] entries IH]; simpl.
  - tauto.
  - assert (is_str v' = false →
            (In (k, v) (scan_docs entries)
             ↔ ((k', v') = (k, JStr v) ∨ In (k, JStr v) entries) ∧ In 0x20%N v)) as Hskip.
    { intros Hs. rewrite IH. split; [tauto |]. intros [[[= <- ->] | H] ?]; done. }
    destruct v' as [| | |s| |]; try (by apply Hskip).
    destruct (PyStr.contains (str " ") s) eqn:E; simpl; rewrite IH.
    + apply (contains_char 0x20%N) in E. split.
      * intros [[= <- <-] | [? ?]]; auto.
      * intros [[[= <- <-] | ?] ?]; auto.
    + split; [tauto |]. intros [[[= <- <-] | ?] Hv]; [| done].
      apply (contains_char 0x20%N) in Hv. change (str " ") with [0x20%N] in E. congruence.
Qed.

(** Over map-shaped elements the loop of lines 79-82 never raises and
    appends the flagged pairs in order. *)
Lemma scan_anti_flagged anti acc :
  forallb is_dict anti = true → scan_anti anti acc = Ok (acc ++ Spec.flagged anti).
Proof.
  revert acc. induction anti as [|a anti IH]; intros acc; simpl.
  - by rewrite app_nil_r.
  - intros [Ha Hrest]%andb_true_iff. destruct a as [| | | | |entries]; try done.
    simpl. unfold Spec.member.
    destruct (default (JStr []) (assoc (str "pattern") entries)); try by apply IH.
    rewrite split_length.
    destruct (Nat.ltb 4 (Spec.token_count s)); [| by apply IH].
    rewrite IH by done. by rewrite <- app_assoc.
Qed.

(** An element that is not map-shaped stops the loop with an error. *)
Lemma scan_anti_raises anti acc :
  forallb is_dict anti = false → scan_anti anti acc = Raise AttributeError.
Proof.
  revert acc. induction anti as [|a anti IH]; intros acc; simpl; [done |].
  intros H. destruct a as [| | | | |entries]; try done. simpl in H.
  simpl. destruct (default (JStr []) (assoc (str "pattern") entries)); try by apply IH.
  destruct (Nat.ltb 4 _); by apply IH.
Qed.

Lemma flagged_In anti i p :
  In (i, p) (Spec.flagged anti)
  ↔ ∃ entries, In (JObj entries) anti
      ∧ Spec.member (str "pattern") (JStr []) entries = JStr p
      ∧ Spec.member (str "id") JNull entries = i
      ∧ (4 < Spec.token_count p)%nat.
Proof.
  induction anti as [|a anti IH]; simpl.
  - split; [done | by intros (? & [] & _)].
  - assert (In (i, p) (Spec.flagged anti) →
            ∃ entries, (a = JObj entries ∨ In (JObj entries) anti)
              ∧ Spec.member (str "pattern") (JStr []) entries = JStr p
              ∧ Spec.member (str "id") JNull entries = i
              ∧ (4 < Spec.token_count p)%nat) as Hrest.
    { intros (entries & ? & ?)%IH. eauto. }
    destruct a as [| | | | |entries];
      try (split; [exact Hrest | intros (e & [[=] | Hin] & H1); apply IH; eauto]).
    destruct (Spec.member (str "pattern") (JStr []) entries) as [| | |q| |] eqn:Hp;
      try (split; [exact Hrest
                  | intros (e & [[= <-] | Hin] & H1 & H2); [congruence | apply IH; eauto]]).
    destruct (Nat.ltb_spec 4 (Spec.token_count q)) as [Hlt | Hge]; simpl.
    + split.
      * intros [[= <- <-] | H]; [exists entries; auto | auto].
      * intros (e & [[= <-] | Hin] & H1 & H2 & H3).
        -- left. congruence.
        -- right. apply IH. eauto.
    + split; [exact Hrest |].
      intros (e & [[= <-] | Hin] & H1 & H2 & H3).
      * assert (q = p) as -> by congruence. lia.
      * apply IH. eauto.
Qed.

End CheckFacts.

(** * The claims *)

Section Claims.
Context {J : JsonModule}.
Import Py PyFacts PyStrFacts CheckFacts.

(** ** Exit statuses *)

(** C4.  Invoked with no argument the script prints the usage line, exits
    with status 1 and leaves every file as it was.  Invoked on a file
    whose content the parser rejects it prints the parse failure together
    with the parser's error, exits with status 2 and leaves every file as
    it was.  The two statuses differ from each other and from the status
    0 of a run that returns. *)
Theorem usage_and_parse_errors
    (argv0 path : pystr) (rest : list pystr) (fs : gmap (list N) (list N))
    (text : pystr) (e : exn) :
  fs !! path = Some text →
  json_loads text = Raise e →
  let no_args := run [argv0] fs in
  let bad_json := run (argv0 :: path :: rest) fs in
  no_args = (Abort (SystemExit 1), {| files := fs; stdout := [LUsage] |})
  ∧ exit_status no_args.1 = 1
  ∧ bad_json = (Abort (SystemExit 2), {| files := fs; stdout := [LParseFail e] |})
  ∧ exit_status bad_json.1 = 2
  ∧ exit_status no_args.1 ≠ exit_status bad_json.1
  ∧ exit_status no_args.1 ≠ exit_status (Done tt)
  ∧ exit_status bad_json.1 ≠ exit_status (Done tt).
Proof.
  intros Hf Hl no_args bad_json. subst no_args bad_json.
  rewrite (main_usage [argv0]) by (simpl; lia).
  rewrite (main_load_raises _ _ _ _ _ _ Hf Hl). simpl.
  repeat split; done.
Qed.

(** ** The maintainer contact *)



(** ** Paths in docs *)

(** C8.  When [docs] is a mapping, the docs check returns without error
    and records the pair (key, value) for exactly the entries whose value
    is a string that contains a space character; an entry whose string
    has no space, or whose value is not a string, is not recorded. *)
Theorem doc_paths_with_spaces (data : json) (entries : list (pystr * json)) :
  docs_of data = Ok (JObj entries) →
  ∃ doc_issues,
    doc_issues_of data = Ok doc_issues
    ∧ ∀ k v, In (k, v) doc_issues ↔ In (k, JStr v) entries ∧ In 0x20%N v.
Proof.
  intros H. exists (scan_docs entries). split.
  - unfold doc_issues_of. by rewrite H.
  - apply scan_docs_In.
Qed.

(** ** Anti-abuse patterns *)

Lemma nl_patterns_of_records (data : json) (anti : list json) :
  anti_abuse_of data = Ok (JArr anti) → forallb is_dict anti = true →
  nl_patterns_of data = Ok (Spec.flagged anti).
Proof.
  intros H Hd. unfold nl_patterns_of. rewrite H. cbn [mbind result_bind iter].
  by rewrite scan_anti_flagged.
Qed.

(** One record in the loop of lines 79-82. *)
Lemma scan_anti_record (entries : list (pystr * json)) (rest : list json)
    (nl_patterns : list (json * pystr)) :
  scan_anti (JObj entries :: rest) nl_patterns
  = match Spec.member (str "pattern") (JStr []) entries with
    | JStr p =>
        scan_anti rest
          (if Nat.ltb 4 (Spec.token_count p)
           then nl_patterns ++ [(Spec.member (str "id") JNull entries, p)]
           else nl_patterns)
    | _ => scan_anti rest nl_patterns
    end.
Proof.
  simpl. unfold Spec.member.
  destruct (default (JStr []) (assoc (str "pattern") entries)); try done.
  rewrite split_length. by destruct (Nat.ltb 4 (Spec.token_count s)).
Qed.

(** C6.  In the loop over [safeguards.anti_abuse], a record whose
    [pattern] is a string adds the pair of its [id] and that pattern to the
    list exactly when the pattern has more than 4 whitespace-delimited
    tokens, and a record whose [pattern] is not a string adds nothing;
    either way the loop goes on with the next element.  Hence, when
    [safeguards.anti_abuse] is a list of records, the check returns
    without error and the pairs recorded are those of the records with a
    string pattern of more than 4 tokens.  The 4-token pattern
    [no spam or scams] is not recorded, the 7-token pattern
    [do not allow spam or scam attempts] is. *)
Theorem anti_abuse_patterns_flagged (data : json) (anti : list json) :
  (∀ entries p rest nl_patterns,
     Spec.member (str "pattern") (JStr []) entries = JStr p →
     ((4 < Spec.token_count p)%nat →
      scan_anti (JObj entries :: rest) nl_patterns
      = scan_anti rest (nl_patterns ++ [(Spec.member (str "id") JNull entries, p)]))
     ∧ (¬ (4 < Spec.token_count p)%nat →
        scan_anti (JObj entries :: rest) nl_patterns = scan_anti rest nl_patterns))
  ∧ (∀ entries rest nl_patterns,
       is_str (Spec.member (str "pattern") (JStr []) entries) = false →
       scan_anti (JObj entries :: rest) nl_patterns = scan_anti rest nl_patterns)
  ∧ (anti_abuse_of data = Ok (JArr anti) →
     forallb is_dict anti = true →
     ∃ nl_patterns,
       nl_patterns_of data = Ok nl_patterns
       ∧ (∀ entries p,
            In (JObj entries) anti →
            Spec.member (str "pattern") (JStr []) entries = JStr p →
            (In (Spec.member (str "id") JNull entries, p) nl_patterns
             ↔ (4 < Spec.token_count p)%nat))
       ∧ (∀ i p,
            In (i, p) nl_patterns →
            ∃ entries, In (JObj entries) anti
              ∧ Spec.member (str "pattern") (JStr []) entries = JStr p
              ∧ Spec.member (str "id") JNull entries = i))
  ∧ (Spec.token_count Sample.four_tokens = 4%nat
     ∧ nl_patterns_of
         (Sample.with_anti_abuse (JArr [Sample.rule "r1" (JStr Sample.four_tokens)]))
       = Ok [])
  ∧ (Spec.token_count Sample.seven_tokens = 7%nat
     ∧ nl_patterns_of
         (Sample.with_anti_abuse (JArr [Sample.rule "r2" (JStr Sample.seven_tokens)]))
       = Ok [(JStr (str "r2"), Sample.seven_tokens)]).
Proof.
  split; [| split; [| split; [| split; split; reflexivity]]].
  - intros entries p rest nl_patterns Hp. rewrite scan_anti_record, Hp. split.
    + intros Hlt%Nat.ltb_lt. by rewrite Hlt.
    + intros Hge%Nat.ltb_nlt. by rewrite Hge.
  - intros entries rest nl_patterns Hp. rewrite scan_anti_record.
    by destruct (Spec.member (str "pattern") (JStr []) entries).
  - intros H Hd.
    exists (Spec.flagged anti). split; [by apply nl_patterns_of_records | split].
    + intros entries p Hin Hp. rewrite flagged_In. split.
      * intros (e & _ & He & _ & Hlt). done.
      * intros Hlt. exists entries. done.
    + intros i p (entries & Hin & Hp & Hi & _)%flagged_In. eauto.
Qed.

(** ** Duplicate ids *)

Lemma all_equal_NoDup {A B} (f : A → B) (l : list A) (k : A) :
  NoDup (List.map f l) → In k l → (∀ a, In a l → f a = f k) → l = [k].
Proof.
  intros Hnd Hk Hall. destruct l as [|a l]; [done |].
  assert (a = k) as ->.
  { apply (NoDup_same_image f (a :: l)); [done | by left | done | apply Hall; by left]. }
  destruct l as [|b l]; [done |]. exfalso.
  simpl in Hnd. apply NoDup_cons in Hnd as [Hnot _]. apply Hnot.
  rewrite <- (Hall b) by (right; by left). by left.
Qed.

(** C7, as amended.  The ids collected from a list are those of the
    elements that are map-shaped and have an [id]; every other element is
    skipped.  When the collected ids are hashable (None, booleans,
    integers, strings), [check_unique_ids] returns one id for each
    dictionary key that more than one collected id has, and nothing else:
    the empty list when no two ids collide, and a single id when exactly
    one value is repeated, however often. *)
Theorem check_unique_ids_duplicates (items : list json) :
  let ids := collect_ids (str "id") items in
  forallb hashable ids = true →
  (∀ x, In x ids
        ↔ ∃ entries, In (JObj entries) items ∧ assoc (str "id") entries = Some x)
  ∧ ∃ dup,
      check_unique_ids (JArr items) = Ok dup
      ∧ (∀ k, In k dup → In k ids ∧ (1 < Spec.occurrences k ids)%nat)
      ∧ (∀ x, In x ids → (1 < Spec.occurrences x ids)%nat →
              ∃ k, In k dup ∧ same_key k x = true)
      ∧ NoDup (List.map key_of dup)
      ∧ ((∀ x, In x ids → Spec.occurrences x ids = 1%nat) → dup = [])
      ∧ (∀ x, In x ids → (1 < Spec.occurrences x ids)%nat →
              (∀ y, In y ids → same_key x y = false → Spec.occurrences y ids = 1%nat) →
              ∃ k, dup = [k] ∧ same_key k x = true).
Proof.
  intros ids Hh. split; [intros x; apply collect_ids_In |].
  destruct (Counter_counts ids Hh) as (c & Hc & Hcounts).
  destruct (duplicates_of_counts ids c Hcounts) as (Hsound & Hcomplete & Hnd).
  set (dup := List.map fst (List.filter (λ kv, Nat.ltb 1 (snd kv)) c)) in *.
  exists dup. split; [| split; [done | split; [done | split; [done | split]]]].
  - unfold check_unique_ids, check_unique_ids_key. cbn [iter mbind result_bind].
    fold ids. by rewrite Hc.
  - intros Hone. destruct dup as [|k d] eqn:E; [done |]. exfalso.
    destruct (Hsound k) as [Hin Hlt]; [by left |]. rewrite (Hone k Hin) in Hlt. lia.
  - intros x Hx Hlt Hothers. destruct (Hcomplete x Hx Hlt) as (k & Hk & Hs).
    exists k. split; [| done].
    apply (all_equal_NoDup key_of); [done | done |].
    intros a Ha. destruct (Hsound a Ha) as [Hain Halt].
    apply same_key_eq in Hs. rewrite Hs.
    destruct (same_key x a) eqn:Hxa.
    + apply same_key_eq in Hxa. congruence.
    + rewrite (Hothers a Hain Hxa) in Halt. lia.
Qed.

(** Elements that are not map-shaped never reach the counter. *)
Lemma check_unique_ids_dicts_only (items : list json) :
  check_unique_ids (JArr items) = check_unique_ids (JArr (List.filter is_dict items)).
Proof.
  unfold check_unique_ids, check_unique_ids_key. cbn [iter mbind result_bind].
  by rewrite collect_ids_dicts.
Qed.

Lemma check_unique_ids_no_dict (items : list json) :
  forallb (λ it, negb (is_dict it)) items = true →
  check_unique_ids (JArr items) = Ok [].
Proof.
  intros H. unfold check_unique_ids, check_unique_ids_key. cbn [iter mbind result_bind].
  by rewrite collect_ids_no_dict.
Qed.

(** ** The output path *)

Lemma output_path_no_suffix (path : pystr) :
  PyStr.contains (str ".json") path = false →
  output_path path = path ++ str ".cleaned.json".
Proof. intros H. unfold output_path. by rewrite replace_absent. Qed.

Lemma output_path_trailing (stem : pystr) :
  PyStr.contains (str ".json") (stem ++ str ".jso") = false →
  output_path (stem ++ str ".json") = stem ++ str ".cleaned.json".
Proof.
  intros H. unfold output_path.
  rewrite (replace_trailing (str ".json") [] stem) by exact H.
  by rewrite app_nil_r.
Qed.

(** Where [.json] occurs at most as the trailing suffix of the path, line
    90 computes DeriveOutputPath. *)
Lemma output_path_agrees (path : pystr) :
  PyStr.contains (str ".json") (removelast path) = false →
  output_path path = Spec.derive_output_path path.
Proof.
  intros H. unfold Spec.derive_output_path, Spec.strip_suffix.
  destruct (PyStr.startswith (rev (str ".json")) (rev path)) eqn:E.
  - apply startswith_prefix in E as [post E].
    apply (f_equal (@rev N)) in E. rewrite rev_involutive, rev_app_distr, rev_involutive in E.
    subst path. rewrite length_app, Nat.add_sub, firstn_app, Nat.sub_diag, firstn_all.
    simpl firstn. rewrite app_nil_r. apply output_path_trailing.
    rewrite removelast_app in H by done. exact H.
  - rewrite output_path_no_suffix; [done |].
    destruct (PyStr.contains (str ".json") path) eqn:C; [| done]. exfalso.
    apply contains_substring in C as (pre & post & ->).
    destruct (exists_last (l:=post)) as [post' [x ->]].
    + intros ->. rewrite app_nil_r, rev_app_distr, startswith_refl in E. done.
    + rewrite !app_assoc, removelast_last, <- app_assoc in H.
      assert (PyStr.contains (str ".json") (pre ++ str ".json" ++ post') = true) as Hc
        by (apply contains_substring; by exists pre, post').
      congruence.
Qed.

(** C2.  Line 90 drops every occurrence of [.json] in the path, not only
    a trailing one: the two paths of the specification come out as
    stated, a path with [.json] inside does not. *)
Theorem output_path_drops_every_suffix :
  output_path (str "foo.json") = str "foo.cleaned.json"
  ∧ output_path (str "foo") = str "foo.cleaned.json"
  ∧ output_path (str "bible_cho_yao_v1.5.json.bak")
    = str "bible_cho_yao_v1.5.bak.cleaned.json"
  ∧ Spec.derive_output_path (str "bible_cho_yao_v1.5.json.bak")
    = str "bible_cho_yao_v1.5.json.bak.cleaned.json".
Proof. repeat split; vm_compute; reflexivity. Qed.

(** ** Documents that follow the data model *)



(** The output path is never the input path: the copy does not replace
    the file it was read from. *)
Lemma output_path_fresh (path : pystr) : output_path path ≠ path.
Proof.
  intros H. apply (f_equal (@length N)) in H. unfold output_path in H.
  rewrite length_app in H.
  destruct (replace_delete_length (str ".json") path) as [k Hk]; [done |].
  change (length (str ".cleaned.json")) with 13%nat in H.
  change (length (str ".json")) with 5%nat in Hk. lia.
Qed.


(** ** Missing fields *)






Lemma missing_not_present (keys : list pystr) (data : json) :
  Spec.missing keys data = true → Spec.present keys data = false.
Proof.
  revert data. induction keys as [|k keys IH]; intros data; [by destruct data |].
  destruct data as [| | | | |entries]; try done. simpl.
  destruct (assoc k entries); [apply IH | done].
Qed.


(** ** Checks that raise *)

(** C9.  When the value at [meta.maintainer.contact] is present and is
    None, a boolean or a number, the substring test of line 60 raises a
    TypeError that nothing catches: the script stops after the lines of
    the id checks with a non-zero status and has written no file. *)
Theorem contact_not_a_string_raises
    (argv0 path : pystr) (rest : list pystr) (fs : gmap (list N) (list N))
    (text : pystr) (data : json) (n m : nat) (dup_ch dup_sc : list json)
    (contact : json) :
  fs !! path = Some text →
  json_loads text = Ok data →
  Spec.ids_checked data n m dup_ch dup_sc →
  contact_of data = Ok contact →
  hashable contact = true →
  is_str contact = false →
  let result := run (argv0 :: path :: rest) fs in
  Spec.present Spec.f_contact data = true
  ∧ is_placeholder contact = Raise TypeError
  ∧ result = (Abort (Uncaught TypeError),
              {| files := fs;
                 stdout := [LParseOk; LSummary n m; chapters_line dup_ch;
                            scenarios_line dup_sc] |})
  ∧ exit_status result.1 ≠ 0
  ∧ files result.2 = fs.
Proof.
  intros Hf Hl (ch & sc & H1 & H2 & H3 & H4 & H5 & H6) Hc Hh Hs result.
  assert (is_placeholder contact = Raise TypeError) as Hp
    by (by destruct contact).
  assert (contact_line data = Raise TypeError) as Hcl.
  { unfold contact_line. rewrite Hc. cbn [mbind result_bind]. by rewrite Hp. }
  assert (Spec.present Spec.f_contact data = true) as Hpr.
  { destruct (Spec.present Spec.f_contact data) eqn:E; [done |]. exfalso.
    destruct data as [| | | | |top]; try done. revert Hc E.
    unfold Spec.f_contact, contact_of. simpl.
    destruct (assoc _ top) as [v|]; simpl.
    - destruct v as [| | | | |meta]; try done. simpl.
      destruct (assoc _ meta) as [v|]; simpl.
      + destruct v as [| | | | |maint]; try done. simpl.
        destruct (assoc _ maint) as [v|]; simpl; [done |].
        intros [= <-]. done.
      + intros [= <-]. done.
    - intros [= <-]. done. }
  subst result.
  rewrite (main_contact_raises argv0 path rest fs text data ch sc n m dup_ch dup_sc TypeError)
    by done.
  repeat split; done.
Qed.

(** C10.  When [safeguards.anti_abuse] is a list with an element that is
    not a mapping, the loop of lines 79-82 raises an AttributeError that
    nothing catches: the script stops before line 91 with status 1 and
    has written no file.  [check_unique_ids], on the contrary, skips the
    elements that are not mappings and raises nothing for them. *)
Theorem anti_abuse_non_mapping_raises
    (argv0 path : pystr) (rest : list pystr) (fs : gmap (list N) (list N))
    (text : pystr) (data : json) (n m : nat) (dup_ch dup_sc : list json)
    (l : line) (doc_issues : list (pystr * pystr)) (anti : list json) :
  fs !! path = Some text →
  json_loads text = Ok data →
  Spec.ids_checked data n m dup_ch dup_sc →
  contact_line data = Ok l →
  doc_issues_of data = Ok doc_issues →
  anti_abuse_of data = Ok (JArr anti) →
  forallb is_dict anti = false →
  let result := run (argv0 :: path :: rest) fs in
  nl_patterns_of data = Raise AttributeError
  ∧ result = (Abort (Uncaught AttributeError),
              {| files := fs;
                 stdout := [LParseOk; LSummary n m; chapters_line dup_ch;
                            scenarios_line dup_sc; l] ++ docs_lines doc_issues |})
  ∧ exit_status result.1 = 1
  ∧ files result.2 = fs
  ∧ (∀ items, check_unique_ids (JArr items)
              = check_unique_ids (JArr (List.filter is_dict items)))
  ∧ (∀ items, forallb (λ it, negb (is_dict it)) items = true →
              check_unique_ids (JArr items) = Ok []).
Proof.
  intros Hf Hl (ch & sc & H1 & H2 & H3 & H4 & H5 & H6) Hc Hd Ha Hnd result.
  assert (nl_patterns_of data = Raise AttributeError) as Hnl.
  { unfold nl_patterns_of. rewrite Ha. cbn [iter mbind result_bind].
    by apply scan_anti_raises. }
  subst result.
  rewrite (main_anti_raises argv0 path rest fs text data ch sc n m dup_ch dup_sc l
             doc_issues AttributeError) by done.
  repeat split; auto using check_unique_ids_dicts_only, check_unique_ids_no_dict.
Qed.

End Claims.

(** * Worked examples

    The claims at concrete documents, with the reference json module. *)

Lemma usage_and_parse_errors_witness :
  let fs : gmap (list N) (list N) := {[ str "broken.json" := str "{not json" ]} in
  let no_args := run (J:=RefJson.ref_json) [script] fs in
  let bad_json := run (J:=RefJson.ref_json) [script; str "broken.json"] fs in
  no_args = (Abort (SystemExit 1), {| files := fs; stdout := [LUsage] |})
  ∧ exit_status no_args.1 = 1
  ∧ bad_json = (Abort (SystemExit 2),
                {| files := fs; stdout := [LParseFail RefJson.syntax_error] |})
  ∧ exit_status bad_json.1 = 2
  ∧ exit_status no_args.1 ≠ exit_status bad_json.1
  ∧ exit_status no_args.1 ≠ exit_status (Done tt)
  ∧ exit_status bad_json.1 ≠ exit_status (Done tt).
Proof.
  apply (usage_and_parse_errors (J:=RefJson.ref_json) script (str "broken.json") []
           {[ str "broken.json" := str "{not json" ]} (str "{not json")
           RefJson.syntax_error).
  - vm_compute. reflexivity.
  - vm_compute. reflexivity.
Defined.






(** The examples of the specification, and the case of the letters. *)
Example contact_examples :
  contact_line (JObj []) = Ok (LContactPlaceholder (JStr []))
  ∧ contact_line (Sample.with_contact (JStr (str "   ")))
    = Ok (LContactPlaceholder (JStr (str "   ")))
  ∧ contact_line (Sample.with_contact (JStr (str "ops@example.org")))
    = Ok (LContactPlaceholder (JStr (str "ops@example.org")))
  ∧ contact_line (Sample.with_contact (JStr (str "please replace")))
    = Ok (LContactPlaceholder (JStr (str "please replace")))
  ∧ contact_line (Sample.with_contact (JStr (str "Replace me")))
    = Ok (LContactSet (JStr (str "Replace me")))
  ∧ contact_line (Sample.with_contact (JStr (str "ops@Example.Org")))
    = Ok (LContactSet (JStr (str "ops@Example.Org"))).
Proof. repeat apply conj; vm_compute; reflexivity. Qed.

Lemma anti_abuse_patterns_flagged_witness :
  let anti := [Sample.rule "r1" (JStr Sample.four_tokens);
               Sample.rule "r2" (JStr Sample.seven_tokens);
               Sample.rule "r3" (JInt 7)] in
  nl_patterns_of (Sample.with_anti_abuse (JArr anti))
  = Ok [(JStr (str "r2"), Sample.seven_tokens)]
  ∧ ∃ nl_patterns,
      nl_patterns_of (Sample.with_anti_abuse (JArr anti)) = Ok nl_patterns
      ∧ (∀ entries p,
           In (JObj entries) anti →
           Spec.member (str "pattern") (JStr []) entries = JStr p →
           (In (Spec.member (str "id") JNull entries, p) nl_patterns
            ↔ (4 < Spec.token_count p)%nat))
      ∧ (∀ i p,
           In (i, p) nl_patterns →
           ∃ entries, In (JObj entries) anti
             ∧ Spec.member (str "pattern") (JStr []) entries = JStr p
             ∧ Spec.member (str "id") JNull entries = i).
Proof.
  intros anti. split; [reflexivity |].
  destruct (anti_abuse_patterns_flagged (Sample.with_anti_abuse (JArr anti)) anti)
    as (_ & _ & Hlist & _).
  apply Hlist; reflexivity.
Defined.

(** The claim of C7 as stated fails on a record whose id is a list:
    [Counter] cannot hash it and [check_unique_ids] raises instead of
    returning. *)
Lemma unhashable_id_raises :
  check_unique_ids (JArr [Sample.record (JArr [])]) = Raise TypeError
  ∧ ¬ ∃ dup, check_unique_ids (JArr [Sample.record (JArr [])]) = Ok dup.
Proof.
  split; [reflexivity |]. intros [dup H]. vm_compute in H. discriminate.
Qed.

Lemma check_unique_ids_duplicates_witness :
  let items := [Sample.record (JStr (str "a")); JStr (str "junk");
                Sample.record (JStr (str "b")); JObj [(str "name", JStr (str "x"))];
                Sample.record (JStr (str "a")); Sample.record (JStr (str "a"))] in
  let ids := collect_ids (str "id") items in
  check_unique_ids (JArr items) = Ok [JStr (str "a")]
  ∧ (∀ x, In x ids
          ↔ ∃ entries, In (JObj entries) items ∧ Py.assoc (str "id") entries = Some x)
  ∧ ∃ dup,
      check_unique_ids (JArr items) = Ok dup
      ∧ (∀ k, In k dup → In k ids ∧ (1 < Spec.occurrences k ids)%nat)
      ∧ (∀ x, In x ids → (1 < Spec.occurrences x ids)%nat →
              ∃ k, In k dup ∧ Py.same_key k x = true)
      ∧ NoDup (List.map Py.key_of dup)
      ∧ ((∀ x, In x ids → Spec.occurrences x ids = 1%nat) → dup = [])
      ∧ (∀ x, In x ids → (1 < Spec.occurrences x ids)%nat →
              (∀ y, In y ids → Py.same_key x y = false → Spec.occurrences y ids = 1%nat) →
              ∃ k, dup = [k] ∧ Py.same_key k x = true).
Proof.
  intros items ids. split; [reflexivity |].
  apply (check_unique_ids_duplicates items). reflexivity.
Defined.

(** [True] and [1] are one dictionary key: the first of them is reported. *)
Example ids_one_and_true :
  check_unique_ids (JArr [Sample.record (JBool true); Sample.record (JInt 1)])
  = Ok [JBool true].
Proof. reflexivity. Qed.

Lemma doc_paths_with_spaces_witness :
  let entries := [(str "guide", JStr (str "my docs/file 1.md"));
                  (str "api", JStr (str "docs/file.md"));
                  (str "pages", JInt 3)] in
  doc_issues_of (Sample.with_docs (JObj entries))
  = Ok [(str "guide", str "my docs/file 1.md")]
  ∧ ∃ doc_issues,
      doc_issues_of (Sample.with_docs (JObj entries)) = Ok doc_issues
      ∧ ∀ k v, In (k, v) doc_issues ↔ In (k, JStr v) entries ∧ In 0x20%N v.
Proof.
  intros entries. split; [reflexivity |].
  apply (doc_paths_with_spaces (Sample.with_docs (JObj entries)) entries). reflexivity.
Defined.

Lemma contact_not_a_string_raises_witness :
  let data := Sample.with_contact (JInt 5) in
  let text := RefJson.dumps data in
  let fs : gmap (list N) (list N) := {[ str "bible.json" := text ]} in
  let result := run (J:=RefJson.ref_json) [script; str "bible.json"] fs in
  RefJson.loads text = Ok data
  ∧ Spec.present Spec.f_contact data = true
  ∧ is_placeholder (JInt 5) = Raise TypeError
  ∧ result = (Abort (Uncaught TypeError),
              {| files := fs;
                 stdout := [LParseOk; LSummary 0 0; chapters_line []; scenarios_line []] |})
  ∧ exit_status result.1 ≠ 0
  ∧ files result.2 = fs.
Proof.
  intros data text fs. split; [vm_compute; reflexivity |].
  apply (contact_not_a_string_raises (J:=RefJson.ref_json) script (str "bible.json") []
           fs text data 0 0 [] [] (JInt 5)).
  - vm_compute. reflexivity.
  - vm_compute. reflexivity.
  - exists (JArr []), (JArr []). repeat apply conj; reflexivity.
  - reflexivity.
  - reflexivity.
  - reflexivity.
Defined.

Lemma anti_abuse_non_mapping_raises_witness :
  let anti := [Sample.rule "r1" (JStr Sample.four_tokens); JStr (str "no links")] in
  let data := Sample.with_anti_abuse (JArr anti) in
  let text := RefJson.dumps data in
  let fs : gmap (list N) (list N) := {[ str "bible.json" := text ]} in
  let result := run (J:=RefJson.ref_json) [script; str "bible.json"] fs in
  RefJson.loads text = Ok data
  ∧ nl_patterns_of data = Raise AttributeError
  ∧ result = (Abort (Uncaught AttributeError),
              {| files := fs;
                 stdout := [LParseOk; LSummary 0 0; chapters_line []; scenarios_line [];
                            LContactPlaceholder (JStr [])] ++ docs_lines [] |})
  ∧ exit_status result.1 = 1
  ∧ files result.2 = fs
  ∧ (∀ items, check_unique_ids (JArr items)
              = check_unique_ids (JArr (List.filter Py.is_dict items)))
  ∧ (∀ items, forallb (λ it, negb (Py.is_dict it)) items = true →
              check_unique_ids (JArr items) = Ok []).
Proof.
  intros anti data text fs. split; [vm_compute; reflexivity |].
  apply (anti_abuse_non_mapping_raises (J:=RefJson.ref_json) script (str "bible.json") []
           fs text data 0 0 [] [] (LContactPlaceholder (JStr [])) [] anti).
  - vm_compute. reflexivity.
  - vm_compute. reflexivity.
  - exists (JArr []), (JArr []). repeat apply conj; reflexivity.
  - reflexivity.
  - reflexivity.
  - reflexivity.
  - reflexivity.
Defined.

(** * Further properties of the script *)

Section Further.
Context {J : JsonModule}.
Import Py PyFacts PyStrFacts CheckFacts.

(** ** Which exceptions the checks raise *)















(** [all_checks] returns exactly when every check returns. *)
Lemma all_checks_ok data n m dup_ch dup_sc l issues pats :
  Shape.all_checks data = Ok (n, m, dup_ch, dup_sc, l, issues, pats)
  ↔ Spec.ids_checked data n m dup_ch dup_sc
    ∧ contact_line data = Ok l
    ∧ doc_issues_of data = Ok issues
    ∧ nl_patterns_of data = Ok pats.
Proof.
  unfold Shape.all_checks, Spec.ids_checked. split.
  - destruct (chapters_of data) as [ch|?]; cbn [mbind result_bind]; [| done].
    destruct (scenarios_of data) as [sc|?]; cbn [mbind result_bind]; [| done].
    destruct (len ch) as [n'|?] eqn:H3; cbn [mbind result_bind]; [| done].
    destruct (len sc) as [m'|?] eqn:H4; cbn [mbind result_bind]; [| done].
    destruct (check_unique_ids ch) as [dch|?] eqn:H5; cbn [mbind result_bind]; [| done].
    destruct (check_unique_ids sc) as [dsc|?] eqn:H6; cbn [mbind result_bind]; [| done].
    destruct (contact_line data) as [l'|?]; cbn [mbind result_bind]; [| done].
    destruct (doc_issues_of data) as [issues'|?]; cbn [mbind result_bind]; [| done].
    destruct (nl_patterns_of data) as [pats'|?]; cbn [mbind result_bind]; [| done].
    intros [= -> -> -> -> -> -> ->].
    split; [| done]. exists ch, sc. by rewrite H3, H4, H5, H6.
  - intros ((ch & sc & -> & -> & H3 & H4 & H5 & H6) & -> & -> & ->).
    cbn [mbind result_bind]. rewrite H3. cbn [mbind result_bind]. rewrite H4.
    cbn [mbind result_bind]. rewrite H5. cbn [mbind result_bind]. rewrite H6. done.
Qed.

(** ** Which documents the checks read *)





(** A loop over the characters of a string or the keys of a mapping meets
    no mapping. *)
Lemma iter_no_dict v its :
  iter v = Ok its → is_dict v || is_str v = true →
  forallb (λ it, negb (is_dict it)) its = true.
Proof.
  destruct v as [| | |s| |entries]; try done; simpl; intros [= <-] _.
  - by induction s.
  - by induction entries.
Qed.

Lemma check_unique_ids_not_list v :
  is_dict v || is_str v = true → check_unique_ids v = Ok [].
Proof.
  intros Hv. unfold check_unique_ids, check_unique_ids_key.
  destruct (iter v) as [its|] eqn:Hi; [| by destruct v].
  cbn [mbind result_bind]. by rewrite (collect_ids_no_dict _ _ (iter_no_dict _ _ Hi Hv)).
Qed.


(** Line 60 on every value. *)
Lemma is_placeholder_cases contact :
  is_placeholder contact
  = match contact with
    | JStr c =>
        Ok (PyStr.contains (str "example.org") c || PyStr.contains (str "replace") c
            || PyStr.eqb (PyStr.strip c) [])
    | JArr _ | JObj _ =>
        if Shape.contact_readable contact then Ok true else Raise AttributeError
    | _ => Raise TypeError
    end.
Proof.
  destruct contact as [| | |c|items|entries]; try done.
  - apply is_placeholder_str.
  - unfold is_placeholder. simpl.
    change (λ x, match x with JStr t => PyStr.eqb t ?sub | _ => false end)
      with (Shape.is_text sub).
    destruct (existsb (Shape.is_text (str "example.org")) items); [done |]. simpl.
    by destruct (existsb (Shape.is_text (str "replace")) items).
  - unfold is_placeholder. simpl.
    destruct (has_key (str "example.org") entries); [done |]. simpl.
    by destruct (has_key (str "replace") entries).
Qed.




(** ** The ways a run can end *)

#[local] Arguments chapters_of : simpl never.
#[local] Arguments scenarios_of : simpl never.
#[local] Arguments check_unique_ids : simpl never.
#[local] Arguments contact_line : simpl never.
#[local] Arguments doc_issues_of : simpl never.
#[local] Arguments nl_patterns_of : simpl never.
#[local] Arguments output_path : simpl never.
#[local] Arguments docs_lines : simpl never.
#[local] Arguments anti_lines : simpl never.
#[local] Arguments Py.len : simpl never.

Lemma write_chunks_cases (chunks : list pystr) :
  forallb PyStr.utf8_encodable chunks = true
  ∨ ∃ before chunk after,
      chunks = before ++ chunk :: after
      ∧ forallb PyStr.utf8_encodable before = true
      ∧ PyStr.utf8_encodable chunk = false.
Proof.
  induction chunks as [|c chunks IH]; [by left |]. simpl.
  destruct (PyStr.utf8_encodable c) eqn:E.
  - destruct IH as [-> | (before & chunk & after & -> & Hb & Hc)]; [by left | right].
    exists (c :: before), chunk, after. simpl. by rewrite E, Hb.
  - right. by exists [], c, chunks.
Qed.

(** A check raises: the exception is not caught and no file is written. *)
Lemma main_check_raises argv0 path rest fs text data e :
  fs !! path = Some text → json_loads text = Ok data →
  Shape.all_checks data = Raise e →
  ∃ out,
    run (argv0 :: path :: rest) fs
    = (Abort (Uncaught e), {| files := fs; stdout := LParseOk :: out |}).
Proof.
  intros Hf Hl H. unfold Shape.all_checks in H.
  unfold run, main, mbind, prog_bind, mret, prog_ret, try_except, load_json,
    lift, print, write_json, sys_exit; cbn.
  rewrite Hf; cbn. rewrite Hl; cbn.
  destruct (chapters_of data) as [ch|?]; cbn [mbind result_bind] in H; cbn;
    [| injection H as <-; by eexists].
  destruct (scenarios_of data) as [sc|?]; cbn [mbind result_bind] in H; cbn;
    [| injection H as <-; by eexists].
  destruct (Py.len ch) as [n|?]; cbn [mbind result_bind] in H; cbn;
    [| injection H as <-; by eexists].
  destruct (Py.len sc) as [m|?]; cbn [mbind result_bind] in H; cbn;
    [| injection H as <-; by eexists].
  destruct (check_unique_ids ch) as [dch|?]; cbn [mbind result_bind] in H; cbn;
    [| injection H as <-; by eexists].
  destruct (check_unique_ids sc) as [dsc|?]; cbn [mbind result_bind] in H; cbn;
    [| injection H as <-; by eexists].
  destruct (contact_line data) as [l|?]; cbn [mbind result_bind] in H; cbn;
    [| injection H as <-; by eexists].
  destruct (doc_issues_of data) as [issues|?]; cbn [mbind result_bind] in H; cbn;
    [| injection H as <-; by eexists].
  rewrite print_all_run. cbn.
  destruct (nl_patterns_of data) as [pats|?]; cbn [mbind result_bind] in H; cbn;
    [done | injection H as <-; by eexists].
Qed.

(** Every run with a document loaded ends in one of three ways. *)
Lemma run_loaded_cases argv0 path rest fs text data :
  fs !! path = Some text → json_loads text = Ok data →
  let result := run (argv0 :: path :: rest) fs in
  (∃ e out,
     Shape.all_checks data = Raise e
     ∧ result = (Abort (Uncaught e), {| files := fs; stdout := LParseOk :: out |}))
  ∨ (∃ r before chunk after out,
       Shape.all_checks data = Ok r
       ∧ json_iterencode data = before ++ chunk :: after
       ∧ forallb PyStr.utf8_encodable before = true
       ∧ PyStr.utf8_encodable chunk = false
       ∧ result = (Abort (Uncaught UnicodeEncodeError),
                   {| files := <[output_path path := concat before]> fs;
                      stdout := LParseOk :: out |}))
  ∨ (∃ n m dup_ch dup_sc l issues pats,
       Shape.all_checks data = Ok (n, m, dup_ch, dup_sc, l, issues, pats)
       ∧ forallb PyStr.utf8_encodable (json_iterencode data) = true
       ∧ result = (Done tt,
                   {| files := <[output_path path := json_dumps data]> fs;
                      stdout := Spec.report n m dup_ch dup_sc l issues pats
                                  (output_path path) |})).
Proof.
  intros Hf Hl result. subst result.
  destruct (Shape.all_checks data) as [[[[[[[n m] dch] dsc] l] issues] pats]|e] eqn:H.
  - apply all_checks_ok in H as Hok.
    destruct Hok as ((ch & sc & H1 & H2 & H3 & H4 & H5 & H6) & H7 & H8 & H9).
    destruct (write_chunks_cases (json_iterencode data))
      as [Henc | (before & chunk & after & Hsplit & Hb & Hc)].
    + right. right. exists n, m, dch, dsc, l, issues, pats.
      split; [done | split; [done |]].
      by apply (main_report argv0 path rest fs text data ch sc).
    + right. left. eexists _, before, chunk, after, _.
      split; [done | split; [done | split; [done | split; [done |]]]].
      by apply (main_write_raises argv0 path rest fs text data ch sc n m dch dsc l issues pats
                  before chunk after).
  - left. destruct (main_check_raises argv0 path rest fs text data e Hf Hl H) as [out Hr].
    by exists e, out.
Qed.

(** Every run ends in one of five ways. *)
Lemma run_cases (argv : list pystr) (fs : gmap (list N) (list N)) :
  let result := run argv fs in
  ((length argv < 2)%nat
   ∧ result = (Abort (SystemExit 1), {| files := fs; stdout := [LUsage] |}))
  ∨ (∃ path e,
       argv !! 1%nat = Some path ∧ Shape.load_raises fs path e
       ∧ result = (Abort (SystemExit 2), {| files := fs; stdout := [LParseFail e] |}))
  ∨ (∃ path text data e out,
       argv !! 1%nat = Some path ∧ fs !! path = Some text ∧ json_loads text = Ok data
       ∧ Shape.all_checks data = Raise e
       ∧ result = (Abort (Uncaught e), {| files := fs; stdout := LParseOk :: out |}))
  ∨ (∃ path text data r before chunk after out,
       argv !! 1%nat = Some path ∧ fs !! path = Some text ∧ json_loads text = Ok data
       ∧ Shape.all_checks data = Ok r
       ∧ json_iterencode data = before ++ chunk :: after
       ∧ forallb PyStr.utf8_encodable before = true
       ∧ PyStr.utf8_encodable chunk = false
       ∧ result = (Abort (Uncaught UnicodeEncodeError),
                   {| files := <[output_path path := concat before]> fs;
                      stdout := LParseOk :: out |}))
  ∨ (∃ path text data n m dup_ch dup_sc l issues pats,
       argv !! 1%nat = Some path ∧ fs !! path = Some text ∧ json_loads text = Ok data
       ∧ Shape.all_checks data = Ok (n, m, dup_ch, dup_sc, l, issues, pats)
       ∧ forallb PyStr.utf8_encodable (json_iterencode data) = true
       ∧ result = (Done tt,
                   {| files := <[output_path path := json_dumps data]> fs;
                      stdout := Spec.report n m dup_ch dup_sc l issues pats
                                  (output_path path) |})).
Proof.
  intros result. subst result.
  destruct argv as [|argv0 [|path rest]].
  - left. split; [simpl; lia | apply main_usage; simpl; lia].
  - left. split; [simpl; lia | apply main_usage; simpl; lia].
  - right. destruct (fs !! path) as [text|] eqn:Hf.
    + destruct (json_loads text) as [data|e] eqn:Hl.
      * right.
        destruct (run_loaded_cases argv0 path rest fs text data Hf Hl)
          as [(e & out & H & Hr) | [(r & before & chunk & after & out & H & Hs & Hb & Hc & Hr)
                                   | (n & m & dch & dsc & l & issues & pats & H & Henc & Hr)]].
        -- left. by exists path, text, data, e, out.
        -- right. left. by exists path, text, data, r, before, chunk, after, out.
        -- right. right. by exists path, text, data, n, m, dch, dsc, l, issues, pats.
      * left. exists path, e. split; [done | split].
        -- right. eauto.
        -- by apply (main_load_raises argv0 path rest fs text).
    + left. exists path, FileNotFoundError. split; [done | split].
      * by left.
      * by apply main_file_missing.
Qed.

(** ** Exit statuses and files, for every run *)

(** X1.  The script exits with status 2 exactly when it is given a path
    and [load_json] raises on it, because the file is not there or because
    the parser rejects its text; it has then printed the error and
    nothing else, and every file is as it was. *)
Theorem exit_status_2_iff_load_raises
    (argv : list pystr) (fs : gmap (list N) (list N)) :
  let result := run argv fs in
  (exit_status result.1 = 2
   ↔ ∃ path e, argv !! 1%nat = Some path ∧ Shape.load_raises fs path e)
  ∧ (∀ path e,
       argv !! 1%nat = Some path → Shape.load_raises fs path e →
       result = (Abort (SystemExit 2), {| files := fs; stdout := [LParseFail e] |})).
Proof.
  intros result.
  assert (∀ path e,
            argv !! 1%nat = Some path → Shape.load_raises fs path e →
            result = (Abort (SystemExit 2), {| files := fs; stdout := [LParseFail e] |}))
    as Hload.
  { intros path e Hp Hr. subst result.
    destruct argv as [|argv0 [|path' rest]]; try done. injection Hp as ->.
    destruct Hr as [[Hf ->] | (text & Hf & Hl)].
    - by apply main_file_missing.
    - by apply (main_load_raises argv0 path rest fs text). }
  split; [| exact Hload]. split.
  - intros Hs. subst result.
    destruct (run_cases argv fs)
      as [[_ Hr] | [(path & e & Hp & Hl & Hr) | [(? & ? & ? & ? & ? & _ & _ & _ & _ & Hr)
         | [(? & ? & ? & ? & ? & ? & ? & ? & _ & _ & _ & _ & _ & _ & _ & Hr)
           | (? & ? & ? & ? & ? & ? & ? & ? & ? & ? & _ & _ & _ & _ & _ & Hr)]]]];
      rewrite Hr in Hs; try done.
    eauto.
  - intros (path & e & Hp & Hr). by rewrite (Hload path e Hp Hr).
Qed.

(** X2.  Whatever the arguments, the files and the outcome, a run changes
    no file other than the one at the output path derived from its first
    argument; in particular the input file is never modified. *)
Theorem run_writes_only_the_output_path
    (argv : list pystr) (fs : gmap (list N) (list N)) (q : pystr) :
  (∀ path, argv !! 1%nat = Some path → q ≠ output_path path) →
  files (run argv fs).2 !! q = fs !! q
  ∧ (∀ path, argv !! 1%nat = Some path → files (run argv fs).2 !! path = fs !! path).
Proof.
  assert (∀ q', (∀ path, argv !! 1%nat = Some path → q' ≠ output_path path) →
                files (run argv fs).2 !! q' = fs !! q') as Hframe.
  { intros q' Hq.
    destruct (run_cases argv fs)
      as [[_ Hr] | [(path & e & Hp & Hl & Hr) | [(path & ? & ? & ? & ? & Hp & _ & _ & _ & Hr)
         | [(path & ? & ? & ? & ? & ? & ? & ? & Hp & _ & _ & _ & _ & _ & _ & Hr)
           | (path & ? & ? & ? & ? & ? & ? & ? & ? & ? & Hp & _ & _ & _ & _ & Hr)]]]];
      rewrite Hr; cbn [snd files]; try done.
    - apply lookup_insert_ne. intros Heq. by apply (Hq path Hp).
    - apply lookup_insert_ne. intros Heq. by apply (Hq path Hp). }
  intros Hq. split; [by apply Hframe |].
  intros path Hp. apply Hframe. intros path' Hp' Heq.
  assert (path' = path) as -> by congruence.
  by apply (output_path_fresh path).
Qed.



(** ** The duplicates, in order *)

Lemma tally_keys x c :
  List.map fst (tally x c)
  = if existsb (λ k, same_key k x) (List.map fst c)
    then List.map fst c else List.map fst c ++ [x].
Proof.
  induction c as [|[k n] c IH]; simpl; [done |].
  destruct (same_key k x); simpl; [done |]. rewrite IH.
  by destruct (existsb _ _).
Qed.

Lemma fold_tally_keys xs c :
  List.map fst (fold_left (λ c k, tally k c) xs c)
  = List.map fst c ++ Shape.firsts (List.map fst c) xs.
Proof.
  revert c. induction xs as [|x xs IH]; intros c; simpl.
  - by rewrite app_nil_r.
  - rewrite IH, tally_keys.
    destruct (existsb _ _); [done |]. by rewrite <- app_assoc.
Qed.

Lemma filter_by_count (f : json → nat) (p : nat → bool) (c : list (json * nat)) :
  (∀ k n, In (k, n) c → n = f k) →
  List.map fst (List.filter (λ kv, p (snd kv)) c)
  = List.filter (λ k, p (f k)) (List.map fst c).
Proof.
  induction c as [|[k n] c IH]; intros H; simpl; [done |].
  rewrite (H k n) by (by left).
  destruct (p (f k)); simpl; rewrite IH; auto; intros; apply H; by right.
Qed.

Lemma firsts_sublist seen ids : sublist (Shape.firsts seen ids) ids.
Proof.
  revert seen. induction ids as [|x ids IH]; intros seen; simpl; [constructor |].
  destruct (existsb _ seen); [by apply sublist_cons | by apply sublist_skip].
Qed.

Lemma filter_sublist {A} (p : A → bool) (l : list A) : sublist (List.filter p l) l.
Proof.
  induction l as [|a l IH]; simpl; [constructor |].
  destruct (p a); [by apply sublist_skip | by apply sublist_cons].
Qed.

(** X5.  For any key and any list whose collected values are hashable,
    [check_unique_ids] returns the first occurrence of each value that
    occurs more than once, in the order of these first occurrences: the
    result is a subsequence of the collected values. *)
Theorem check_unique_ids_first_occurrences (key : pystr) (items : list json) :
  let ids := collect_ids key items in
  forallb hashable ids = true →
  check_unique_ids_key (JArr items) key
  = Ok (List.filter (λ k, Nat.ltb 1 (Spec.occurrences k ids)) (Shape.firsts [] ids))
  ∧ ∃ dup, check_unique_ids_key (JArr items) key = Ok dup ∧ sublist dup ids.
Proof.
  intros ids Hh.
  assert (check_unique_ids_key (JArr items) key
          = Ok (List.filter (λ k, Nat.ltb 1 (Spec.occurrences k ids))
                  (Shape.firsts [] ids))) as Heq.
  { unfold check_unique_ids_key. cbn [iter mbind result_bind]. fold ids.
    unfold Counter. rewrite Hh. cbn [mbind result_bind mret result_ret]. f_equal.
    rewrite (filter_by_count (λ k, Spec.occurrences k ids) (Nat.ltb 1)).
    - by rewrite (fold_tally_keys ids []).
    - intros k n Hin.
      destruct (counts_fold [] ids [] counts_nil) as (_ & Hc & _).
      by destruct (Hc k n Hin). }
  split; [exact Heq |]. eexists. split; [exact Heq |].
  etrans; [apply filter_sublist | apply firsts_sublist].
Qed.

(** X9.  Given a string or a mapping where a list of records is
    expected, [len] counts its characters or keys and
    [check_unique_ids], which then iterates over characters or keys and
    meets no record, reports no duplicate; given None, a boolean or a
    number, both raise TypeError. *)
Theorem check_unique_ids_not_a_list (v : json) :
  match v with
  | JArr _ => True
  | JStr s => len v = Ok (length s) ∧ check_unique_ids v = Ok []
  | JObj entries => len v = Ok (length entries) ∧ check_unique_ids v = Ok []
  | _ => len v = Raise TypeError ∧ check_unique_ids v = Raise TypeError
  end.
Proof.
  destruct v as [| | |s|items|entries]; try done.
  - split; [done | by apply check_unique_ids_not_list].
  - split; [done | by apply check_unique_ids_not_list].
Qed.

(** ** The maintainer check on a contact that is not a string *)

(** X6.  When the contact is a list or a mapping, the test of line 60
    looks for the two placeholder texts among its elements or keys: if one
    is there the placeholder warning is printed, and otherwise the call of
    [strip] raises AttributeError.  The line saying that the contact is set
    is printed for strings only. *)
Theorem contact_list_or_mapping (data contact : json) :
  contact_of data = Ok contact →
  is_str contact = false →
  (Shape.contact_readable contact = true →
   contact_line data = Ok (LContactPlaceholder contact))
  ∧ (Shape.contact_readable contact = false → hashable contact = false →
     contact_line data = Raise AttributeError)
  ∧ (∀ l, contact_line data = Ok l → l = LContactPlaceholder contact).
Proof.
  intros Hc Hs. unfold contact_line. rewrite Hc. cbn [mbind result_bind].
  rewrite is_placeholder_cases.
  destruct contact as [| | |c|items|entries]; try done; cbn [mbind result_bind].
  - destruct (Shape.contact_readable (JArr items)); cbn [mbind result_bind];
      repeat split; try done. by intros l [= <-].
  - destruct (Shape.contact_readable (JObj entries)); cbn [mbind result_bind];
      repeat split; try done. by intros l [= <-].
Qed.

(** ** The anti-abuse check on a value that is not a list *)

(** X11.  When [safeguards.anti_abuse] is the empty string or the empty
    mapping the loop of lines 79-82 has nothing to visit and nothing is
    recorded; when it is a non-empty string or mapping the loop visits
    characters or keys and the first [get] raises AttributeError; when it
    is None, a boolean or a number the loop itself raises TypeError. *)
Theorem anti_abuse_not_a_list (data anti : json) :
  anti_abuse_of data = Ok anti →
  match anti with
  | JArr _ => True
  | JStr [] | JObj [] => nl_patterns_of data = Ok []
  | JStr _ | JObj _ => nl_patterns_of data = Raise AttributeError
  | _ => nl_patterns_of data = Raise TypeError
  end.
Proof.
  intros H. unfold nl_patterns_of. rewrite H. cbn [mbind result_bind].
  destruct anti as [| | |s|items|entries]; try done.
  - by destruct s.
  - by destruct entries.
Qed.

(** ** Writing and reading back *)



(** ** The output path of an ordinary path *)

(** X10.  For a path in which [.json] does not occur, line 90 appends
    [.cleaned.json] to the path; for a path that ends with [.json] and has
    no other occurrence of it, line 90 exchanges that ending for
    [.cleaned.json].  The output path is never the input path. *)
Theorem output_path_of_ordinary_path (path stem : pystr) :
  (PyStr.contains (str ".json") path = false →
   output_path path = path ++ str ".cleaned.json")
  ∧ (path = stem ++ str ".json" →
     PyStr.contains (str ".json") (stem ++ str ".jso") = false →
     output_path path = stem ++ str ".cleaned.json")
  ∧ output_path path ≠ path.
Proof.
  split; [apply output_path_no_suffix | split; [| apply output_path_fresh]].
  intros -> H. by apply output_path_trailing.
Qed.

End Further.

(** * Worked examples for the further properties *)

Lemma exit_status_2_iff_load_raises_witness :
  run (J:=RefJson.ref_json) [script; str "missing.json"] ∅
  = (Abort (SystemExit 2), {| files := ∅; stdout := [LParseFail FileNotFoundError] |})
  ∧ exit_status (run (J:=RefJson.ref_json) [script; str "missing.json"] ∅).1 = 2.
Proof.
  destruct (exit_status_2_iff_load_raises (J:=RefJson.ref_json)
              [script; str "missing.json"] ∅) as [Hiff Hrun].
  split.
  - apply (Hrun (str "missing.json") FileNotFoundError); [reflexivity |].
    left. split; reflexivity.
  - apply Hiff. exists (str "missing.json"), FileNotFoundError.
    split; [reflexivity |]. left. split; reflexivity.
Defined.

Lemma run_writes_only_the_output_path_witness :
  let fs : gmap (list N) (list N) :=
    {[ str "bible.json" := str "{}" ]} ∪ {[ str "notes.txt" := str "keep" ]} in
  let result := run (J:=RefJson.ref_json) [script; str "bible.json"] fs in
  files result.2 !! str "notes.txt" = fs !! str "notes.txt"
  ∧ (∀ path, [script; str "bible.json"] !! 1%nat = Some path →
             files result.2 !! path = fs !! path).
Proof.
  intros fs result.
  apply (run_writes_only_the_output_path (J:=RefJson.ref_json)
           [script; str "bible.json"] fs (str "notes.txt")).
  intros path [= <-]. vm_compute. discriminate.
Defined.



Lemma check_unique_ids_first_occurrences_witness :
  let items := [JObj [(str "name", JStr (str "b"))]; JObj [(str "name", JInt 1)];
                JObj [(str "name", JStr (str "a"))]; JObj [(str "id", JStr (str "a"))];
                JObj [(str "name", JBool true)]; JObj [(str "name", JStr (str "a"))];
                JObj [(str "name", JStr (str "b"))]] in
  let ids := collect_ids (str "name") items in
  check_unique_ids_key (JArr items) (str "name")
  = Ok [JStr (str "b"); JInt 1; JStr (str "a")]
  ∧ check_unique_ids_key (JArr items) (str "name")
    = Ok (List.filter (λ k, Nat.ltb 1 (Spec.occurrences k ids)) (Shape.firsts [] ids))
  ∧ ∃ dup, check_unique_ids_key (JArr items) (str "name") = Ok dup ∧ sublist dup ids.
Proof.
  intros items ids. split; [reflexivity |].
  apply (check_unique_ids_first_occurrences (str "name") items). reflexivity.
Defined.

Lemma contact_list_or_mapping_witness :
  let contact := JArr [JStr (str "ops"); JStr (str "replace")] in
  let data := Sample.with_contact contact in
  contact_line data = Ok (LContactPlaceholder contact)
  ∧ contact_line (Sample.with_contact (JArr [JStr (str "please replace")]))
    = Raise AttributeError.
Proof.
  intros contact data. split.
  - apply (contact_list_or_mapping data contact); reflexivity.
  - apply (contact_list_or_mapping
             (Sample.with_contact (JArr [JStr (str "please replace")]))
             (JArr [JStr (str "please replace")])); reflexivity.
Defined.

Lemma anti_abuse_not_a_list_witness :
  nl_patterns_of (Sample.with_anti_abuse (JStr (str "no spam"))) = Raise AttributeError.
Proof.
  apply (anti_abuse_not_a_list (Sample.with_anti_abuse (JStr (str "no spam")))
           (JStr (str "no spam"))).
  reflexivity.
Defined.



Lemma output_path_of_ordinary_path_witness :
  output_path (str "configs/bible_cho_yao_v1.5.json")
  = str "configs/bible_cho_yao_v1.5" ++ str ".cleaned.json"
  ∧ output_path (str "bible") = str "bible" ++ str ".cleaned.json".
Proof.
  split.
  - apply (output_path_of_ordinary_path (str "configs/bible_cho_yao_v1.5.json")
             (str "configs/bible_cho_yao_v1.5")); reflexivity.
  - apply (output_path_of_ordinary_path (str "bible") []). reflexivity.
Defined.
